(** * Image-to-video generation workflow: service layer and React workflow

    Shallow embedding of [services/geminiService.ts] (both revisions present
    in the repository), of [App.tsx] (both revisions) and of [types.ts].

    The two hosted models, the AI Studio key dialog, [fetch], [Math.random]
    and [process.env] are the outside world.  They are gathered in a record
    of oracles, [World]; every theorem quantifies over it.  An awaited call
    resolves, rejects, or stays unsettled, so that a run can be observed
    while a request is in flight. *)

From Stdlib Require Import List String Ascii NArith ZArith QArith Qround Bool Lia Arith.
Import ListNotations.
Close Scope Q_scope.

Set Implicit Arguments.

(* ================================================================== *)
(** ** JavaScript strings *)

(** A JavaScript string is a sequence of UTF-16 code units. *)
Definition jsstring := list N.

(** A literal of the source text (all literals used here are ASCII). *)
Definition lit (s : string) : jsstring :=
  List.map N_of_ascii (list_ascii_of_string s).

Definition jsstring_eqb (a b : jsstring) : bool :=
  if list_eq_dec N.eq_dec a b then true else false.

(** [WhiteSpace] and [LineTerminator] of ECMAScript: what [trim] removes. *)
Definition isWhiteSpace (c : N) : bool :=
  existsb (N.eqb c)
    [9; 10; 11; 12; 13; 32; 160; 5760; 8232; 8233; 8239; 8287; 12288; 65279]%N
  || ((8192 <=? c) && (c <=? 8202))%N.

Fixpoint trimStart (s : jsstring) : jsstring :=
  match s with
  | c :: s' => if isWhiteSpace c then trimStart s' else s
  | [] => []
  end.

Definition trimEnd (s : jsstring) : jsstring := rev (trimStart (rev s)).

(** [String.prototype.trim]. *)
Definition trim (s : jsstring) : jsstring := trimEnd (trimStart s).

Fixpoint startsWith (needle s : jsstring) : bool :=
  match needle, s with
  | [], _ => true
  | _ :: _, [] => false
  | a :: needle', b :: s' => N.eqb a b && startsWith needle' s'
  end.

(** [String.prototype.includes]: [s.includes(needle)]. *)
Fixpoint includes (s needle : jsstring) : bool :=
  startsWith needle s ||
  match s with
  | [] => false
  | _ :: s' => includes s' needle
  end.

(** Truthiness of a value that is a string or [undefined]. *)
Definition truthy (v : option jsstring) : bool :=
  match v with
  | Some (_ :: _) => true
  | _ => false
  end.

(** [v || d] for [v] a string or [undefined] and [d] a string. *)
Definition orElse (v : option jsstring) (d : jsstring) : jsstring :=
  match v with
  | Some (c :: s) => c :: s
  | _ => d
  end.

(** A string or [undefined] inside a template literal. *)
Definition toStr (v : option jsstring) : jsstring :=
  match v with
  | Some s => s
  | None => lit "undefined"
  end.

(* ================================================================== *)
(** ** Thrown values and awaited calls *)

(** A thrown value.  The handlers look at nothing but [error.message], and
    read it as [error.message?.includes(...)] and [error.message === ...]:
    a thrown value is an object with a [name] and with a [message] that is
    a string or is missing. *)
Record JsError := mkJsError {
  errName : jsstring;
  errMessage : option jsstring
}.

(** [new Error(msg)]. *)
Definition newError (msg : jsstring) : JsError :=
  mkJsError (lit "Error") (Some msg).

(** Reading a property of [undefined]. *)
Definition typeError : JsError :=
  mkJsError (lit "TypeError") (Some (lit "Cannot read properties of undefined")).

(** The state of the promise behind an [await]. *)
Inductive Async (A : Type) : Type :=
| Resolved (a : A)
| Rejected (e : JsError)
| Unsettled.
Arguments Rejected {A} e.
Arguments Unsettled {A}.

(* ================================================================== *)
(** ** The two revisions *)

(** The repository holds two revisions of the service and two of the
    application.  They differ in their texts, in the poll delay, in the
    request sent to the text model and in [ensureApiKey].  [AerialDirector]
    is the service with the 6-8 second rules and the application titled
    "AERIAL DIRECTOR AI"; [LuxuryCinema] is the service with the 5 second,
    invisible-drone rules and the application titled "LUXURY AERIAL
    CINEMA". *)
Inductive Revision := AerialDirector | LuxuryCinema.

Definition fallbackPrompt (r : Revision) : jsstring :=
  match r with
  | AerialDirector => lit "A professional cinematic drone shot of the scene."
  | LuxuryCinema => lit "Clean aerial camera footage, 5-second cinematic luxury commercial reveal of the building, invisible-drone stabilized flight path."
  end.

Definition initMessage (r : Revision) : jsstring :=
  match r with
  | AerialDirector => lit "Initializing cinematic sequence..."
  | LuxuryCinema => lit "Initializing cinematic master sequence..."
  end.

Definition inFlightMessage (r : Revision) : jsstring :=
  match r with
  | AerialDirector => lit "Aerial drone in flight... framing the shot."
  | LuxuryCinema => lit "Stabilizing aerial camera platform..."
  end.

Definition pollDelay (r : Revision) : N :=
  match r with
  | AerialDirector => 8000
  | LuxuryCinema => 10000
  end.

Definition messages (r : Revision) : list jsstring :=
  match r with
  | AerialDirector =>
      [ lit "Stabilizing gimbal trajectory...";
        lit "Adjusting aperture for natural lighting...";
        lit "Calculating parallax between layers...";
        lit "Rendering cinematic motion blur...";
        lit "Ensuring fluid drone physics...";
        lit "Finalizing commercial-grade output..." ]
  | LuxuryCinema =>
      [ lit "Smoothing cinematic drift...";
        lit "Matching reference lighting and shadows...";
        lit "Refining structural geometry lock...";
        lit "Eliminating drone artifacts...";
        lit "Optimizing 5-second hero reveal...";
        lit "Finalizing luxury commercial export..." ]
  end.

Definition captureFailedMessage (r : Revision) : jsstring :=
  match r with
  | AerialDirector => lit "Video generation failed to return a URI."
  | LuxuryCinema => lit "Aerial capture failed."
  end.

Definition entityNotFound : jsstring := lit "Requested entity was not found".

Definition API_KEY_EXPIRED : jsstring := lit "API_KEY_EXPIRED".

(* ================================================================== *)
(** ** Data exchanged with the hosted service *)

(** The request of [ai.models.generateContent].  The system instruction
    ([CINEMATOGRAPHY_RULES]) is a constant of each revision and is left
    out. *)
Record ContentRequest := mkContentRequest {
  crModel : jsstring;
  crData : jsstring;
  crMimeType : jsstring;
  crText : option jsstring;
  crTemperature : Q;
  crTopP : Q;
  crTopK : N
}.

Record GenerateContentResponse := mkContentResponse {
  text : option jsstring
}.

Record VideosRequest := mkVideosRequest {
  vrModel : jsstring;
  vrPrompt : jsstring;
  vrImageBytes : jsstring;
  vrMimeType : jsstring;
  vrNumberOfVideos : N;
  vrResolution : jsstring;
  vrAspectRatio : jsstring
}.

Record Video := mkVideo { uri : option jsstring }.
Record GeneratedVideo := mkGeneratedVideo { video : option Video }.
Record GenerateVideosResponse := mkVideosResponse {
  generatedVideos : option (list GeneratedVideo)
}.

(** The operation handle of an asynchronous video job. *)
Record Operation := mkOperation {
  opName : jsstring;
  done : option bool;
  response : option GenerateVideosResponse
}.

(** Truthiness of [operation.done]. *)
Definition isDone (op : Operation) : bool :=
  match done op with
  | Some true => true
  | _ => false
  end.

Definition Blob := list N.

Record FetchResponse := mkFetchResponse { blob : Async Blob }.

Record AIStudio := mkAIStudio {
  hasSelectedApiKey : Async bool;
  openSelectKey : nat -> Async unit     (* by number of earlier openings *)
}.

(** The outside world of one run. *)
Record World := mkWorld {
  envApiKey : option jsstring;                      (* process.env.API_KEY *)
  aistudio : option AIStudio;                       (* window.aistudio *)
  generateContent : ContentRequest -> Async GenerateContentResponse;
  generateVideos : VideosRequest -> Async Operation;
  getVideosOperation : nat -> Operation -> Async Operation;
                                                    (* by number of earlier fetches *)
  random : nat -> Q;                                (* Math.random(), by number of earlier draws *)
  fetch : jsstring -> Async FetchResponse;
  createObjectURL : Blob -> jsstring
}.

(** What a run does to the world, in order. *)
Inductive Event :=
| EvHasSelectedApiKey
| EvOpenSelectKey
| EvGenerateContent (req : ContentRequest)
| EvGenerateVideos (req : VideosRequest)
| EvSetTimeout (ms : N)
| EvGetVideosOperation (op : Operation)
| EvOnUpdate (msg : jsstring)
| EvFetch (url : jsstring)
| EvBlob
| EvCreateObjectURL (b : Blob)
| EvConsoleError (e : JsError).

Definition isPoll (e : Event) : bool :=
  match e with EvGetVideosOperation _ => true | _ => false end.

Definition isUpdate (e : Event) : bool :=
  match e with EvOnUpdate _ => true | _ => false end.

Definition isFetch (e : Event) : bool :=
  match e with EvFetch _ => true | _ => false end.

(* ================================================================== *)
(** ** The monad of asynchronous code *)

(** How a piece of code ends: it returns, it throws, or it is still
    waiting (an awaited promise has not settled, or the run was cut). *)
Inductive Outcome (A : Type) : Type :=
| Returned (a : A)
| Thrown (e : JsError)
| Pending.
Arguments Thrown {A} e.
Arguments Pending {A}.

Section Machine.

(** The caller's own store (for the application, the React state). *)
Variable C : Type.

Record State := mkState {
  client : C;
  log : list Event;         (* oldest first *)
  polls : nat;              (* status fetches issued *)
  draws : nat;              (* random numbers drawn *)
  keyDialogs : nat          (* key dialogs opened *)
}.

Definition M (A : Type) : Type := State -> State * Outcome A.

Definition ret {A} (a : A) : M A := fun st => (st, Returned a).

Definition throw {A} (e : JsError) : M A := fun st => (st, Thrown e).

Definition bind {A B} (m : M A) (k : A -> M B) : M B :=
  fun st =>
    match m st with
    | (st', Returned a) => k a st'
    | (st', Thrown e) => (st', Thrown e)
    | (st', Pending) => (st', Pending)
    end.

(** [try { m } catch (error) { h error }]. *)
Definition tryCatch {A} (m : M A) (h : JsError -> M A) : M A :=
  fun st =>
    match m st with
    | (st', Thrown e) => h e st'
    | other => other
    end.

Definition emit (e : Event) : M unit :=
  fun st => (mkState (client st) (log st ++ [e]) (polls st) (draws st) (keyDialogs st),
             Returned tt).

(** [await p]. *)
Definition await {A} (p : Async A) : M A :=
  fun st =>
    match p with
    | Resolved a => (st, Returned a)
    | Rejected e => (st, Thrown e)
    | Unsettled => (st, Pending)
    end.

Definition modify (f : C -> C) : M unit :=
  fun st => (mkState (f (client st)) (log st) (polls st) (draws st) (keyDialogs st),
             Returned tt).

Definition readClient : M C := fun st => (st, Returned (client st)).

End Machine.

Arguments ret {C A} a.
Arguments throw {C A} e.
Arguments emit {C} e.
Arguments await {C A} p.

Declare Scope js_scope.
Delimit Scope js_scope with js.
Notation "x <- m ;; k" := (bind m (fun x => k))
  (at level 100, m at next level, right associativity) : js_scope.
Notation "m ;;; k" := (bind m (fun _ => k))
  (at level 100, right associativity) : js_scope.
Open Scope js_scope.

(* ================================================================== *)
(** ** services/geminiService.ts *)

Section Service.

Variable C : Type.
Variable r : Revision.
Variable w : World.

Definition contentRequest (imageBuffer mimeType : jsstring) : ContentRequest :=
  match r with
  | AerialDirector =>
      mkContentRequest (lit "gemini-3-flash-preview") imageBuffer mimeType
        None (7 # 10) (95 # 100) 40
  | LuxuryCinema =>
      mkContentRequest (lit "gemini-3-pro-preview") imageBuffer mimeType
        (Some (lit "Generate a 5-second cinematic aerial camera prompt for this luxury architectural project, following the strict invisible-drone commercial rules."))
        (3 # 10) (95 # 100) 40
  end.

(** [response.text?.trim() || fallback]. *)
Definition promptOfResponse (response : GenerateContentResponse) : jsstring :=
  orElse (option_map trim (text response)) (fallbackPrompt r).

Definition generateDirectorPrompt (imageBuffer mimeType : jsstring) : M C jsstring :=
  let request := contentRequest imageBuffer mimeType in
  emit (EvGenerateContent request) ;;;
  response <- await (generateContent w request) ;;
  ret (promptOfResponse response).

Definition videosRequest (prompt imageBuffer mimeType : jsstring) : VideosRequest :=
  mkVideosRequest (lit "veo-3.1-fast-generate-preview") prompt imageBuffer mimeType
    1 (lit "720p") (lit "9:16").

(** [ai.operations.getVideosOperation({operation})]. *)
Definition fetchOperation (operation : Operation) : M C Operation :=
  fun st =>
    await (getVideosOperation w (polls st) operation)
      (mkState (client st) (log st ++ [EvGetVideosOperation operation])
               (S (polls st)) (draws st) (keyDialogs st)).

(** [Math.random()]. *)
Definition mathRandom : M C Q :=
  fun st =>
    (mkState (client st) (log st) (polls st) (S (draws st)) (keyDialogs st),
     Returned (random w (draws st))).

(** [messages[Math.floor(x * messages.length)]], with the product taken
    exactly; for [0 <= x < 1] the index is inside the pool. *)
Definition pickMessage (x : Q) : jsstring :=
  nth (Z.to_nat (Qfloor (x * inject_Z (Z.of_nat (List.length (messages r))))))
      (messages r) [].

(** A call of the progress callback. *)
Definition callOnUpdate (onUpdate : jsstring -> C -> C) (msg : jsstring) : M C unit :=
  emit (EvOnUpdate msg) ;;; modify (onUpdate msg).

(** [while (!operation.done) { ... }]; [fuel] bounds the iterations that
    are observed, and a run cut by it is [Pending]. *)
Fixpoint pollLoop (onUpdate : jsstring -> C -> C) (fuel : nat)
         (operation : Operation) : M C Operation :=
  if isDone operation then ret operation
  else
    match fuel with
    | O => fun st => (st, Pending)
    | S fuel' =>
        emit (EvSetTimeout (pollDelay r)) ;;;
        operation' <- fetchOperation operation ;;
        x <- mathRandom ;;
        callOnUpdate onUpdate (pickMessage x) ;;;
        pollLoop onUpdate fuel' operation'
    end.

(** [operation.response?.generatedVideos?.[0]?.video?.uri]. *)
Definition downloadLinkOf (operation : Operation) : option jsstring :=
  match response operation with
  | None => None
  | Some resp =>
      match generatedVideos resp with
      | None => None
      | Some vids =>
          match nth_error vids 0 with
          | None => None
          | Some gv =>
              match video gv with
              | None => None
              | Some v => uri v
              end
          end
      end
  end.

(** The [catch] block around the submission. *)
Definition submissionHandler (error : JsError) : M C Operation :=
  if match errMessage error with
     | Some m => includes m entityNotFound
     | None => false
     end
  then throw (newError API_KEY_EXPIRED)
  else throw error.

Definition generateVeoVideo (prompt imageBuffer mimeType : jsstring)
           (onUpdate : jsstring -> C -> C) (fuel : nat) : M C jsstring :=
  callOnUpdate onUpdate (initMessage r) ;;;
  operation <-
    tryCatch
      (let request := videosRequest prompt imageBuffer mimeType in
       emit (EvGenerateVideos request) ;;;
       await (generateVideos w request))
      submissionHandler ;;
  callOnUpdate onUpdate (inFlightMessage r) ;;;
  operation <- pollLoop onUpdate fuel operation ;;
  let downloadLink := downloadLinkOf operation in
  if negb (truthy downloadLink) then throw (newError (captureFailedMessage r))
  else
    let url := toStr downloadLink ++ lit "&key=" ++ toStr (envApiKey w) in
    emit (EvFetch url) ;;;
    response <- await (fetch w url) ;;
    emit EvBlob ;;;
    blob <- await (blob response) ;;
    emit (EvCreateObjectURL blob) ;;;
    ret (createObjectURL w blob).

End Service.

(* ================================================================== *)
(** ** types.ts *)

Inductive Step := idle | analyzing | generating | polling | completed | error.

Record VideoGenerationStatus := mkStatus {
  step : Step;
  message : jsstring;
  progress : option Q
}.

Record GenerationResult := mkResult {
  videoUrl : jsstring;
  directorPrompt : jsstring
}.

Definition Step_eqb (a b : Step) : bool :=
  match a, b with
  | idle, idle | analyzing, analyzing | generating, generating
  | polling, polling | completed, completed | error, error => true
  | _, _ => false
  end.

(* ================================================================== *)
(** ** App.tsx *)

Definition analyzingMessage (r : Revision) : jsstring :=
  match r with
  | AerialDirector => lit "Director analyzing reference images..."
  | LuxuryCinema => lit "Director composing 5s hero sequence..."
  end.

Definition generatingMessage (r : Revision) : jsstring :=
  match r with
  | AerialDirector => lit "Starting drone flight sequence..."
  | LuxuryCinema => lit "Generating cinematic master..."
  end.

Definition completedMessage (r : Revision) : jsstring :=
  match r with
  | AerialDirector => lit "Production complete."
  | LuxuryCinema => lit "Cinema master ready."
  end.

Definition keyExpiredMessage (r : Revision) : jsstring :=
  match r with
  | AerialDirector => lit "Please re-select your paid API key and try again."
  | LuxuryCinema => lit "Select your paid API key and retry."
  end.

Definition interruptedMessage (r : Revision) : jsstring :=
  match r with
  | AerialDirector => lit "Production interrupted. Check console for details."
  | LuxuryCinema => lit "Production interrupted."
  end.

Record Image := mkImage {
  data : jsstring;
  mimeType : jsstring
}.

(** The three [useState] cells of [App], and a ghost record of every status
    committed through [setStatus], oldest first. *)
Record Store := mkStore {
  selectedImage : option Image;
  status : VideoGenerationStatus;
  result : option GenerationResult;
  statusHistory : list VideoGenerationStatus
}.

Definition initialStore : Store :=
  mkStore None (mkStatus idle (lit "") None) None [].

Definition setSelectedImage (v : option Image) (s : Store) : Store :=
  mkStore v (status s) (result s) (statusHistory s).

Definition setResult (v : option GenerationResult) (s : Store) : Store :=
  mkStore (selectedImage s) (status s) v (statusHistory s).

(** [setStatus(f)] with an updater function; [setStatus(v)] is
    [setStatus(_ => v)]. *)
Definition commitStatus (f : VideoGenerationStatus -> VideoGenerationStatus)
           (s : Store) : Store :=
  let v := f (status s) in
  mkStore (selectedImage s) v (result s) (statusHistory s ++ [v]).

(** [{ ...prev, message: msg }]. *)
Definition withMessage (msg : jsstring) (prev : VideoGenerationStatus)
  : VideoGenerationStatus :=
  mkStatus (step prev) msg (progress prev).

(** [s.split(sep)] for a one-unit separator. *)
Fixpoint split (sep : N) (s : jsstring) : list jsstring :=
  match s with
  | [] => [[]]
  | c :: s' =>
      if N.eqb c sep then [] :: split sep s'
      else
        match split sep s' with
        | piece :: rest => (c :: piece) :: rest
        | [] => [[c]]
        end
  end.

(** The chosen file: its [type] and what [readAsDataURL] produces. *)
Record File := mkFile {
  fileType : jsstring;
  readerResult : jsstring
}.

(** [handleImageUpload], with [reader.onload] run.  A data URL always
    holds a comma, so element 1 of the split exists. *)
Definition handleImageUpload (file : option File) (s : Store) : Store :=
  match file with
  | None => s
  | Some f =>
      let base64Data := nth 1 (split 44 (readerResult f)) [] in
      setResult None (setSelectedImage (Some (mkImage base64Data (fileType f))) s)
  end.

(** The [disabled] attribute of the trigger button, negated. *)
Definition generateEnabled (s : Store) : bool :=
  match selectedImage s with
  | None => false
  | Some _ =>
      match step (status s) with
      | idle | completed | error => true
      | _ => false
      end
  end.

Section App.

Variable r : Revision.
Variable w : World.

Definition setStatus (v : VideoGenerationStatus) : M Store unit :=
  modify (commitStatus (fun _ => v)).

(** [window.aistudio.hasSelectedApiKey()]. *)
Definition callHasSelectedApiKey : M Store bool :=
  match aistudio w with
  | None => throw typeError
  | Some a => emit EvHasSelectedApiKey ;;; await (hasSelectedApiKey a)
  end.

(** [window.aistudio.openSelectKey()]. *)
Definition callOpenSelectKey : M Store unit :=
  match aistudio w with
  | None => throw typeError
  | Some a =>
      fun st =>
        await (openSelectKey a (keyDialogs st))
          (mkState (client st) (log st ++ [EvOpenSelectKey])
                   (polls st) (draws st) (S (keyDialogs st)))
  end.

Definition ensureApiKey : M Store bool :=
  match r with
  | AerialDirector =>
      tryCatch
        (hasKey <- callHasSelectedApiKey ;;
         (if negb hasKey then callOpenSelectKey else ret tt) ;;;
         ret true)
        (fun err => emit (EvConsoleError err) ;;; ret false)
  | LuxuryCinema =>
      tryCatch
        (hasKey <- callHasSelectedApiKey ;;
         if negb hasKey then callOpenSelectKey ;;; ret true
         else ret true)
        (fun err =>
           (match aistudio w with
            | Some _ => tryCatch callOpenSelectKey (fun _ => ret tt)
            | None => ret tt
            end) ;;;
           ret true)
  end.

(** The progress callback handed to [generateVeoVideo]. *)
Definition onUpdate (msg : jsstring) : Store -> Store :=
  commitStatus (withMessage msg).

(** The [try] block of [startGeneration]. *)
Definition generationBody (image : Image) (fuel : nat) : M Store unit :=
  setStatus (mkStatus analyzing (analyzingMessage r) None) ;;;
  directorPrompt <- generateDirectorPrompt r w (data image) (mimeType image) ;;
  setStatus (mkStatus generating (generatingMessage r) None) ;;;
  videoUrl <- generateVeoVideo r w directorPrompt (data image) (mimeType image)
                onUpdate fuel ;;
  modify (setResult (Some (mkResult videoUrl directorPrompt))) ;;;
  setStatus (mkStatus completed (completedMessage r) None).

(** The [catch] block of [startGeneration]. *)
Definition generationHandler (err : JsError) : M Store unit :=
  emit (EvConsoleError err) ;;;
  if match errMessage err with
     | Some m => jsstring_eqb m API_KEY_EXPIRED
     | None => false
     end
  then
    callOpenSelectKey ;;;
    setStatus (mkStatus error (keyExpiredMessage r) None)
  else
    setStatus (mkStatus error (interruptedMessage r) None).

Definition startGeneration (fuel : nat) : M Store unit :=
  store <- readClient (C := Store) ;;
  match selectedImage store with
  | None => ret tt
  | Some image =>
      hasKey <- ensureApiKey ;;
      if negb hasKey then ret tt
      else tryCatch (generationBody image fuel) generationHandler
  end.

End App.

(** A run of a handler from a store, with fresh counters and an empty log. *)
Definition initState (s : Store) : State Store := mkState s [] 0 0 0.

Definition afterGeneration (r : Revision) (w : World) (fuel : nat) (s : Store)
  : Store :=
  client (fst (startGeneration r w fuel (initState s))).

(* ================================================================== *)
(** ** The runs, step by step: vocabulary of the statements *)

Section Unrolled.

Variable C : Type.
Variable r : Revision.
Variable w : World.
Variable onUpdate : jsstring -> C -> C.

(** What one iteration adds to the log: the delay, the status fetch and
    the call of the progress callback. *)
Definition iterationEvents (op : Operation) (d : nat) : list Event :=
  [ EvSetTimeout (pollDelay r);
    EvGetVideosOperation op;
    EvOnUpdate (pickMessage r (random w d)) ].

(** The state after an iteration that started with [op] in hand. *)
Definition afterIteration (op : Operation) (st : State C) : State C :=
  mkState (onUpdate (pickMessage r (random w (draws st))) (client st))
          (log st ++ iterationEvents op (draws st))
          (S (polls st)) (S (draws st)) (keyDialogs st).

(** [ops 0] is the operation the loop starts with, [ops (S k)] the one
    fetched in iteration [k]. *)
Fixpoint afterIterations (n : nat) (ops : nat -> Operation) (st : State C)
  : State C :=
  match n with
  | O => st
  | S n' => afterIterations n' (fun k => ops (S k)) (afterIteration (ops 0) st)
  end.

Fixpoint loopEvents (n d : nat) (ops : nat -> Operation) : list Event :=
  match n with
  | O => []
  | S n' => iterationEvents (ops 0) d ++ loopEvents n' (S d) (fun k => ops (S k))
  end.

(** The state once the submission has resolved and the second progress
    message has been sent. *)
Definition afterSubmission (prompt imageBuffer mimeType : jsstring) (st : State C)
  : State C :=
  mkState (onUpdate (inFlightMessage r) (onUpdate (initMessage r) (client st)))
          (log st ++ [ EvOnUpdate (initMessage r);
                       EvGenerateVideos (videosRequest prompt imageBuffer mimeType);
                       EvOnUpdate (inFlightMessage r) ])
          (polls st) (draws st) (keyDialogs st).

(** What [generateVeoVideo] does with the operation the loop ends on. *)
Definition deliver (operation : Operation) : M C jsstring :=
  let downloadLink := downloadLinkOf operation in
  if negb (truthy downloadLink) then throw (newError (captureFailedMessage r))
  else
    let url := toStr downloadLink ++ lit "&key=" ++ toStr (envApiKey w) in
    emit (EvFetch url) ;;;
    response <- await (fetch w url) ;;
    emit EvBlob ;;;
    blob <- await (blob response) ;;
    emit (EvCreateObjectURL blob) ;;;
    ret (createObjectURL w blob).

End Unrolled.

(** The statuses [startGeneration] sets outright. *)
Definition workflowStatuses (r : Revision) : list VideoGenerationStatus :=
  [ mkStatus analyzing (analyzingMessage r) None;
    mkStatus generating (generatingMessage r) None;
    mkStatus completed (completedMessage r) None;
    mkStatus error (keyExpiredMessage r) None;
    mkStatus error (interruptedMessage r) None ].

(** The status updaters of the workflow: the five above, and the progress
    callback, which replaces the message only. *)
Inductive workflowUpdate (r : Revision)
  : (VideoGenerationStatus -> VideoGenerationStatus) -> Prop :=
| wuSet : forall v, In v (workflowStatuses r) -> workflowUpdate r (fun _ => v)
| wuMessage : forall msg, workflowUpdate r (withMessage msg).

(** A property of the store that every status update of the workflow
    keeps. *)
Definition keptByStatus (r : Revision) (P : Store -> Prop) : Prop :=
  forall f c, workflowUpdate r f -> P c -> P (commitStatus f c).

(** Adjacent repetitions removed. *)
Fixpoint collapse (l : list Step) : list Step :=
  match l with
  | a :: t =>
      match t with
      | b :: _ => if Step_eqb a b then collapse t else a :: collapse t
      | [] => [a]
      end
  | [] => []
  end.

(** The steps the status went through between two stores: the step it had,
    then the step of every status committed since. *)
Definition stepsVisited (before after : Store) : list Step :=
  collapse (step (status before)
            :: List.map step (skipn (List.length (statusHistory before))
                                    (statusHistory after))).

(** What the user can do.  A run that is still waiting is a run observed
    in flight. *)
Inductive Action :=
| Upload (file : option File)
| RemoveImage
| Generate (w : World) (fuel : nat).

Definition perform (r : Revision) (a : Action) (s : Store) : Store :=
  match a with
  | Upload file => handleImageUpload file s
  | RemoveImage => setSelectedImage None s
  | Generate w fuel => afterGeneration r w fuel s
  end.

Inductive reachable (r : Revision) : Store -> Prop :=
| reachable_initial : reachable r initialStore
| reachable_perform : forall a s, reachable r s -> reachable r (perform r a s).

Section Blocks.

Variable r : Revision.
Variable w : World.

(** The [try] block after its first statement. *)
Definition generationRest (image : Image) (fuel : nat) : M Store unit :=
  directorPrompt <- generateDirectorPrompt r w (data image) (mimeType image) ;;
  setStatus (mkStatus generating (generatingMessage r) None) ;;;
  videoUrl <- generateVeoVideo r w directorPrompt (data image) (mimeType image)
                onUpdate fuel ;;
  modify (setResult (Some (mkResult videoUrl directorPrompt))) ;;;
  setStatus (mkStatus completed (completedMessage r) None).

Definition afterAnalyzing (st : State Store) : State Store :=
  mkState (commitStatus (fun _ => mkStatus analyzing (analyzingMessage r) None) (client st))
          (log st) (polls st) (draws st) (keyDialogs st).

End Blocks.

(** No status of step [polling]. *)
Definition neverPolling (s : Store) : Prop :=
  Forall (fun v => step v <> polling) (status s :: statusHistory s).

(** What the progress callback does to the store: it appends statuses that
    carry the step and the progress of the current one. *)
Definition messagesAppended (c c' : Store) : Prop :=
  selectedImage c' = selectedImage c /\
  result c' = result c /\
  step (status c') = step (status c) /\
  progress (status c') = progress (status c) /\
  exists msgs,
    statusHistory c'
    = statusHistory c
      ++ List.map (fun m => mkStatus (step (status c)) m (progress (status c))) msgs.

(* ================================================================== *)
(** ** Sample worlds *)

Definition sampleImage : Image := mkImage (lit "AAAA") (lit "image/jpeg").

Definition sampleLink : jsstring := lit "https://video.example/v1/files/7:download?alt=media".

Definition pendingOperation : Operation :=
  mkOperation (lit "operations/7") None None.

Definition finishedOperation (link : option jsstring) : Operation :=
  mkOperation (lit "operations/7") (Some true)
    (Some (mkVideosResponse (Some [mkGeneratedVideo (Some (mkVideo link))]))).

(** Done, with an error and no response. *)
Definition failedOperation : Operation :=
  mkOperation (lit "operations/7") (Some true) None.

(** Two fetches report the job as running, the third as done. *)
Definition sampleOps (last : Operation) (k : nat) : Operation :=
  if k <? 3 then pendingOperation else last.

Definition neverDoneOps (k : nat) : Operation := pendingOperation.

Definition sampleStudio : AIStudio :=
  mkAIStudio (Resolved true) (fun _ => Resolved tt).

Definition sampleBlob : Blob := [0; 0; 0; 24; 102; 116; 121; 112]%N.

Definition worldWith (studio : option AIStudio)
           (content : Async GenerateContentResponse)
           (submission : Async Operation)
           (ops : nat -> Operation) : World :=
  mkWorld (Some (lit "KEY")) studio
          (fun _ => content)
          (fun _ => submission)
          (fun k _ => Resolved (ops (S k)))
          (fun k => (1 # 2)%Q)
          (fun _ => Resolved (mkFetchResponse (Resolved sampleBlob)))
          (fun _ => lit "blob:https://app.example/5a1c").

Definition sampleResponse : GenerateContentResponse :=
  mkContentResponse (Some (lit "  Slow aerial reveal of the villa.  ")).

(** Every call succeeds; the job is done at the third fetch. *)
Definition sampleWorld : World :=
  worldWith (Some sampleStudio) (Resolved sampleResponse)
            (Resolved pendingOperation) (sampleOps (finishedOperation (Some sampleLink))).

Definition entityNotFoundError : JsError :=
  mkJsError (lit "ApiError")
            (Some (lit "got status: 404. Requested entity was not found."%string)).

Definition quotaError : JsError :=
  mkJsError (lit "ApiError") (Some (lit "got status: 429. Quota exceeded.")).

(** The submission is refused with "Requested entity was not found". *)
Definition expiredKeyWorld : World :=
  worldWith (Some sampleStudio) (Resolved sampleResponse)
            (Rejected entityNotFoundError) neverDoneOps.

(** The submission is refused for another reason. *)
Definition quotaWorld : World :=
  worldWith (Some sampleStudio) (Resolved sampleResponse)
            (Rejected quotaError) neverDoneOps.

(** The job never completes. *)
Definition stuckWorld : World :=
  worldWith (Some sampleStudio) (Resolved sampleResponse)
            (Resolved pendingOperation) neverDoneOps.

(** The job completes without a video. *)
Definition noVideoWorld : World :=
  worldWith (Some sampleStudio) (Resolved sampleResponse)
            (Resolved pendingOperation) (sampleOps failedOperation).

Definition readyStore : Store := setSelectedImage (Some sampleImage) initialStore.

(** The store once the sample run has completed: it holds a result. *)
Definition completedStore : Store := afterGeneration LuxuryCinema sampleWorld 5 readyStore.

Definition sampleFile : File :=
  mkFile (lit "image/jpeg") (lit "data:image/jpeg;base64,AAAA").

(** The text model has not answered yet. *)
Definition composingWorld : World :=
  worldWith (Some sampleStudio) Unsettled (Resolved pendingOperation) neverDoneOps.

(** The key dialog fails when it is opened. *)
Definition brokenDialogStudio : AIStudio :=
  mkAIStudio (Resolved true) (fun _ => Rejected (newError (lit "The dialog could not be opened."))).

(** The submission is refused with "Requested entity was not found", and
    the key dialog fails. *)
Definition brokenDialogWorld : World :=
  worldWith (Some brokenDialogStudio) (Resolved sampleResponse)
            (Rejected entityNotFoundError) neverDoneOps.

(** The page runs outside AI Studio ([window.aistudio] is undefined), and
    the submission is refused with "Requested entity was not found". *)
Definition outsideStudioWorld : World :=
  worldWith None (Resolved sampleResponse) (Rejected entityNotFoundError) neverDoneOps.


(* ================================================================== *)
(** ** More of App.tsx: what the page shows *)

(** The [src] of the preview: [`data:${mimeType};base64,${data}`]. *)
Definition previewSrc (image : Image) : jsstring :=
  lit "data:" ++ mimeType image ++ lit ";base64," ++ data image.

(** The condition under which the button shows its spinner and the player
    its progress overlay. *)
Definition showsProgress (s : Store) : bool :=
  match step (status s) with
  | analyzing | generating | polling => true
  | _ => false
  end.

(* ================================================================== *)
(** ** Reading a log *)

(** The messages the progress callback was called with, in order. *)
Definition updateMessages (l : list Event) : list jsstring :=
  flat_map (fun e => match e with EvOnUpdate msg => [msg] | _ => [] end) l.

(** The callback applied to the store once per message, in order. *)
Definition applyUpdates (C : Type) (onUpd : jsstring -> C -> C)
           (msgs : list jsstring) (c : C) : C :=
  fold_left (fun c' msg => onUpd msg c') msgs c.

Definition isContentRequest (e : Event) : bool :=
  match e with EvGenerateContent _ => true | _ => false end.

Definition isSubmission (e : Event) : bool :=
  match e with EvGenerateVideos _ => true | _ => false end.

Definition isObjectURL (e : Event) : bool :=
  match e with EvCreateObjectURL _ => true | _ => false end.

(** A call to one of the hosted models, or the download. *)
Definition isHostedCall (e : Event) : bool :=
  isContentRequest e || isSubmission e || isPoll e || isFetch e.

(** What an iteration of the poll loop may log. *)
Definition isLoopEvent (e : Event) : bool :=
  match e with
  | EvSetTimeout _ | EvGetVideosOperation _ | EvOnUpdate _ => true
  | _ => false
  end.

(** What [generateVeoVideo] may log. *)
Definition isVideoJobEvent (e : Event) : bool :=
  match e with
  | EvOnUpdate _ | EvGenerateVideos _ | EvSetTimeout _ | EvGetVideosOperation _
  | EvFetch _ | EvBlob | EvCreateObjectURL _ => true
  | _ => false
  end.

(** A stored result is sound: its prompt is not empty and is trimmed, and
    a completed status was committed at some point. *)
Definition resultSound (s : Store) : Prop :=
  forall v,
    result s = Some v ->
    directorPrompt v <> [] /\
    trim (directorPrompt v) = directorPrompt v /\
    exists c, In c (statusHistory s) /\ step c = completed.

(** The job is running for two fetches; the third fetch fails. *)
Definition pollFailureWorld : World :=
  mkWorld (Some (lit "KEY")) (Some sampleStudio)
          (fun _ => Resolved sampleResponse)
          (fun _ => Resolved pendingOperation)
          (fun k _ => if k <? 2 then Resolved pendingOperation
                      else Rejected entityNotFoundError)
          (fun k => (1 # 2)%Q)
          (fun _ => Resolved (mkFetchResponse (Resolved sampleBlob)))
          (fun _ => lit "blob:https://app.example/5a1c").

(** The job completes with a locator; the download fails. *)
Definition downloadFailureWorld : World :=
  mkWorld None (Some sampleStudio)
          (fun _ => Resolved sampleResponse)
          (fun _ => Resolved pendingOperation)
          (fun k _ => Resolved (sampleOps (finishedOperation (Some sampleLink)) (S k)))
          (fun k => (1 # 2)%Q)
          (fun _ => Rejected quotaError)
          (fun _ => lit "blob:https://app.example/5a1c").

(** The key check asks for a key, and the dialog returns. *)
Definition askingStudio : AIStudio :=
  mkAIStudio (Resolved false) (fun _ => Resolved tt).

(* ================================================================== *)
(** ** Strings: facts about [includes], [trim] and the literals *)

Lemma startsWith_app (needle post : jsstring) :
  startsWith needle (needle ++ post) = true.
Proof.
  induction needle as [|a needle IH]; simpl; [reflexivity|].
  now rewrite N.eqb_refl, IH.
Qed.

Lemma startsWith_inv (needle s : jsstring) :
  startsWith needle s = true -> exists post, s = needle ++ post.
Proof.
  revert s; induction needle as [|a needle IH]; intros s H.
  - now exists s.
  - destruct s as [|b s]; simpl in H; [discriminate|].
    apply andb_true_iff in H as [Hab Hrest].
    apply N.eqb_eq in Hab; subst b.
    destruct (IH _ Hrest) as [post ->].
    now exists post.
Qed.

Lemma includes_startsWith (s needle : jsstring) :
  startsWith needle s = true -> includes s needle = true.
Proof. intros H; destruct s; simpl; now rewrite H. Qed.

(** [includes] decides the substring relation. *)
Lemma includes_spec (s needle : jsstring) :
  includes s needle = true <-> exists pre post, s = pre ++ needle ++ post.
Proof.
  split.
  - induction s as [|c s IH]; simpl; intros H.
    + rewrite orb_false_r in H.
      destruct (startsWith_inv _ _ H) as [post ->].
      now exists [], post.
    + apply orb_true_iff in H as [H|H].
      * destruct (startsWith_inv _ _ H) as [post Hpost].
        exists [], post. exact Hpost.
      * destruct (IH H) as (pre & post & ->).
        now exists (c :: pre), post.
  - intros (pre & post & ->).
    induction pre as [|c pre IH].
    + change ([] ++ needle ++ post) with (needle ++ post).
      apply includes_startsWith, startsWith_app.
    + simpl. rewrite IH. apply orb_true_r.
Qed.

Lemma jsstring_eqb_eq (a b : jsstring) : jsstring_eqb a b = true <-> a = b.
Proof.
  unfold jsstring_eqb.
  destruct (list_eq_dec N.eq_dec a b); split; congruence.
Qed.

Lemma trimStart_head (s : jsstring) :
  match trimStart s with
  | c :: _ => isWhiteSpace c = false
  | [] => True
  end.
Proof.
  induction s as [|c s IH]; simpl; [exact I|].
  destruct (isWhiteSpace c) eqn:E; [exact IH | simpl; exact E].
Qed.

Lemma trimStart_suffix (s : jsstring) : exists pre, s = pre ++ trimStart s.
Proof.
  induction s as [|c s [pre IH]]; simpl.
  - now exists [].
  - destruct (isWhiteSpace c).
    + exists (c :: pre). simpl. now rewrite <- IH.
    + now exists [].
Qed.

Lemma trimEnd_prefix (s : jsstring) : exists post, s = trimEnd s ++ post.
Proof.
  unfold trimEnd.
  destruct (trimStart_suffix (rev s)) as [pre H].
  exists (rev pre).
  rewrite <- rev_app_distr, <- H. symmetry. apply rev_involutive.
Qed.

(** What [trim] returns neither starts nor ends with white space. *)
Lemma trim_edges (s : jsstring) (c : N) (u : jsstring) :
  trim s = c :: u ->
  isWhiteSpace c = false /\ isWhiteSpace (last (trim s) c) = false.
Proof.
  unfold trim. intros H. split.
  - destruct (trimEnd_prefix (trimStart s)) as [post Hp].
    rewrite H in Hp. simpl in Hp.
    pose proof (trimStart_head s) as Hh. now rewrite Hp in Hh.
  - unfold trimEnd in *.
    pose proof (trimStart_head (rev (trimStart s))) as Hh.
    destruct (trimStart (rev (trimStart s))) as [|z v]; [discriminate|].
    simpl. now rewrite last_last.
Qed.

Lemma fallbackPrompt_nonempty (r : Revision) : fallbackPrompt r <> [].
Proof. destruct r; discriminate. Qed.



(* ================================================================== *)
(** ** The poll loop, iteration by iteration *)

Section PollLoop.

Variable C : Type.
Variable r : Revision.
Variable w : World.
Variable onUpdate : jsstring -> C -> C.

Lemma pollLoop_done fuel op (st : State C) :
  isDone op = true -> pollLoop r w onUpdate fuel op st = (st, Returned op).
Proof. intros H. destruct fuel; simpl; now rewrite H. Qed.

Lemma pollLoop_cut op (st : State C) :
  isDone op = false -> pollLoop r w onUpdate 0 op st = (st, Pending).
Proof. intros H. simpl. now rewrite H. Qed.

Lemma pollLoop_iterate fuel op op' (st : State C) :
  isDone op = false ->
  getVideosOperation w (polls st) op = Resolved op' ->
  pollLoop r w onUpdate (S fuel) op st
  = pollLoop r w onUpdate fuel op' (afterIteration r w onUpdate op st).
Proof.
  intros Hd Hf. simpl. rewrite Hd.
  unfold bind, emit, fetchOperation, mathRandom, callOnUpdate, modify, await.
  simpl. rewrite Hf. simpl.
  unfold afterIteration, iterationEvents.
  rewrite <- !app_assoc. reflexivity.
Qed.

Lemma pollLoop_rejected fuel op e (st : State C) :
  isDone op = false ->
  getVideosOperation w (polls st) op = Rejected e ->
  snd (pollLoop r w onUpdate (S fuel) op st) = Thrown e.
Proof.
  intros Hd Hf. simpl. rewrite Hd.
  unfold bind, emit, fetchOperation, await. simpl. now rewrite Hf.
Qed.

(** The loop unrolled: after [n] iterations with nothing done before,
    it returns if the operation in hand is done and is cut if the fuel
    is spent. *)
Lemma pollLoop_unroll n :
  forall fuel (ops : nat -> Operation) (st : State C),
    (forall k, k < n -> isDone (ops k) = false) ->
    (forall k, k < n ->
               getVideosOperation w (polls st + k) (ops k) = Resolved (ops (S k))) ->
    (isDone (ops n) = true /\ n <= fuel \/ isDone (ops n) = false /\ n = fuel) ->
    pollLoop r w onUpdate fuel (ops 0) st
    = (afterIterations r w onUpdate n ops st,
       if isDone (ops n) then Returned (ops n) else Pending).
Proof.
  induction n as [|n IH]; intros fuel ops st Hnd Hf Hend.
  - simpl afterIterations.
    destruct Hend as [[Hd _]|[Hd <-]]; rewrite Hd.
    + now apply pollLoop_done.
    + now apply pollLoop_cut.
  - destruct fuel as [|fuel]; [lia|].
    rewrite (@pollLoop_iterate fuel (ops 0) (ops 1)).
    + simpl afterIterations.
      apply (IH fuel (fun k => ops (S k))).
      * intros k Hk. apply Hnd. lia.
      * intros k Hk. simpl polls.
        replace (S (polls st) + k) with (polls st + S k) by lia.
        apply Hf. lia.
      * destruct Hend as [[Hd Hle]|[Hd Heq]]; [left|right]; split; auto; lia.
    + apply Hnd. lia.
    + specialize (Hf 0). rewrite Nat.add_0_r in Hf. apply Hf. lia.
Qed.

(** Within the fuel, either some operation is the first one done or
    none is. *)
Lemma first_done_or_cut (ops : nat -> Operation) (fuel : nat) :
  exists n,
    n <= fuel /\
    (forall k, k < n -> isDone (ops k) = false) /\
    (isDone (ops n) = true \/ isDone (ops n) = false /\ n = fuel).
Proof.
  induction fuel as [|fuel (n & Hle & Hbefore & Hend)].
  - exists 0. split; [lia|]. split; [intros k Hk; lia|].
    destruct (isDone (ops 0)); auto.
  - destruct Hend as [Hd|[Hd ->]].
    + exists n. repeat split; auto.
    + destruct (isDone (ops (S fuel))) eqn:E.
      * exists (S fuel). split; [lia|]. split; [|now left].
        intros k Hk. destruct (Nat.eq_dec k fuel) as [->|]; [exact Hd|].
        apply Hbefore. lia.
      * exists (S fuel). split; [lia|]. split; [|now right].
        intros k Hk. destruct (Nat.eq_dec k fuel) as [->|]; [exact Hd|].
        apply Hbefore. lia.
Qed.

Lemma afterIterations_log n :
  forall ops (st : State C),
    log (afterIterations r w onUpdate n ops st) = log st ++ loopEvents r w n (draws st) ops.
Proof.
  induction n as [|n IH]; intros ops st; simpl.
  - now rewrite app_nil_r.
  - rewrite IH. simpl. now rewrite <- !app_assoc.
Qed.

Lemma afterIterations_polls n :
  forall ops (st : State C),
    polls (afterIterations r w onUpdate n ops st) = polls st + n.
Proof.
  induction n as [|n IH]; intros ops st; simpl; [lia|].
  rewrite IH. simpl. lia.
Qed.

Lemma afterIterations_keyDialogs n :
  forall ops (st : State C),
    keyDialogs (afterIterations r w onUpdate n ops st) = keyDialogs st.
Proof.
  induction n as [|n IH]; intros ops st; simpl; [reflexivity|].
  now rewrite IH.
Qed.

(** Whatever the callback preserves, the iterations preserve. *)
Lemma afterIterations_client (R : C -> C -> Prop) :
  (forall c, R c c) ->
  (forall c msg c', R c c' -> R c (onUpdate msg c')) ->
  forall n ops (st0 st : State C),
    R (client st0) (client st) ->
    R (client st0) (client (afterIterations r w onUpdate n ops st)).
Proof.
  intros Hrefl Hstep. induction n as [|n IH]; intros ops st0 st H; simpl.
  - exact H.
  - apply IH. simpl. now apply Hstep.
Qed.

Lemma loopEvents_polls n :
  forall d ops, List.length (filter isPoll (loopEvents r w n d ops)) = n.
Proof. induction n as [|n IH]; intros d ops; simpl; [reflexivity|]. now rewrite IH. Qed.


Lemma loopEvents_no_fetch n :
  forall d ops, filter isFetch (loopEvents r w n d ops) = [].
Proof. induction n as [|n IH]; intros d ops; simpl; [reflexivity|]. now rewrite IH. Qed.

End PollLoop.

(* ================================================================== *)
(** ** The prompt composer *)

(** C1.  Whenever the text-model call returns, [generateDirectorPrompt]
    returns a non-empty string: the trimmed text of the response when that
    is non-empty, and the fixed fallback otherwise, in particular when the
    text is missing or empty. *)
Theorem generateDirectorPrompt_nonempty :
  forall (C : Type) (r : Revision) (w : World) (imageBuffer mimeType : jsstring)
         (resp : GenerateContentResponse) (st : State C),
    generateContent w (contentRequest r imageBuffer mimeType) = Resolved resp ->
    exists prompt,
      snd (generateDirectorPrompt r w imageBuffer mimeType st) = Returned prompt /\
      client (fst (generateDirectorPrompt r w imageBuffer mimeType st)) = client st /\
      prompt <> [] /\
      (forall t, text resp = Some t -> trim t <> [] -> prompt = trim t) /\
      (forall t, text resp = Some t -> trim t = [] -> prompt = fallbackPrompt r) /\
      (text resp = None \/ text resp = Some [] -> prompt = fallbackPrompt r).
Proof.
  intros C r w imageBuffer mimeType resp st Hcall.
  exists (promptOfResponse r resp).
  unfold generateDirectorPrompt, bind, emit, await, ret. simpl.
  rewrite Hcall. simpl.
  split; [reflexivity|]. split; [reflexivity|].
  unfold promptOfResponse.
  destruct (text resp) as [t|]; simpl.
  - destruct (trim t) as [|c u] eqn:Et; simpl.
    + split; [apply fallbackPrompt_nonempty|].
      split; [intros t' [= <-] Hne; now rewrite Et in Hne|].
      split; [reflexivity|]. reflexivity.
    + split; [discriminate|].
      split; [intros t' [= <-] _; now rewrite Et|].
      split; [intros t' [= <-] He; rewrite Et in He; discriminate|].
      intros [H|[= ->]]; [discriminate|]. discriminate.
  - split; [apply fallbackPrompt_nonempty|].
    split; [discriminate|]. split; [discriminate|]. reflexivity.
Qed.

Lemma generateDirectorPrompt_nonempty_witness :
  exists prompt,
    snd (generateDirectorPrompt LuxuryCinema sampleWorld (data sampleImage)
           (mimeType sampleImage) (initState readyStore)) = Returned prompt /\
    client (fst (generateDirectorPrompt LuxuryCinema sampleWorld (data sampleImage)
                   (mimeType sampleImage) (initState readyStore))) = readyStore /\
    prompt <> [] /\
    (forall t, text sampleResponse = Some t -> trim t <> [] -> prompt = trim t) /\
    (forall t, text sampleResponse = Some t -> trim t = [] ->
               prompt = fallbackPrompt LuxuryCinema) /\
    (text sampleResponse = None \/ text sampleResponse = Some [] ->
     prompt = fallbackPrompt LuxuryCinema).
Proof.
  apply (@generateDirectorPrompt_nonempty Store LuxuryCinema sampleWorld
           (data sampleImage) (mimeType sampleImage) sampleResponse
           (initState readyStore)).
  reflexivity.
Defined.

(* ================================================================== *)
(** ** The video job client *)

Section VideoJob.

Variable C : Type.
Variable r : Revision.
Variable w : World.
Variable onUpdate : jsstring -> C -> C.

Lemma generateVeoVideo_submitted prompt imageBuffer mimeType fuel op (st : State C) :
  generateVideos w (videosRequest prompt imageBuffer mimeType) = Resolved op ->
  generateVeoVideo r w prompt imageBuffer mimeType onUpdate fuel st
  = bind (pollLoop r w onUpdate fuel op) (deliver r w)
         (afterSubmission r onUpdate prompt imageBuffer mimeType st).
Proof.
  intros H.
  unfold generateVeoVideo, bind, tryCatch, callOnUpdate, emit, modify, await.
  simpl. rewrite H. simpl.
  unfold afterSubmission. rewrite <- !app_assoc. reflexivity.
Qed.

Lemma generateVeoVideo_refused prompt imageBuffer mimeType fuel e (st : State C) :
  generateVideos w (videosRequest prompt imageBuffer mimeType) = Rejected e ->
  generateVeoVideo r w prompt imageBuffer mimeType onUpdate fuel st
  = (mkState (onUpdate (initMessage r) (client st))
             (log st ++ [ EvOnUpdate (initMessage r);
                          EvGenerateVideos (videosRequest prompt imageBuffer mimeType) ])
             (polls st) (draws st) (keyDialogs st),
     Thrown (if match errMessage e with
                | Some m => includes m entityNotFound
                | None => false
                end
             then newError API_KEY_EXPIRED
             else e)).
Proof.
  intros H.
  unfold generateVeoVideo, bind, tryCatch, callOnUpdate, emit, modify, await.
  simpl. rewrite H. simpl. rewrite <- !app_assoc. simpl.
  unfold submissionHandler, throw.
  destruct (match errMessage e with Some m => includes m entityNotFound | None => false end);
    reflexivity.
Qed.

Lemma generateVeoVideo_unsettled prompt imageBuffer mimeType fuel (st : State C) :
  generateVideos w (videosRequest prompt imageBuffer mimeType) = Unsettled ->
  generateVeoVideo r w prompt imageBuffer mimeType onUpdate fuel st
  = (mkState (onUpdate (initMessage r) (client st))
             (log st ++ [ EvOnUpdate (initMessage r);
                          EvGenerateVideos (videosRequest prompt imageBuffer mimeType) ])
             (polls st) (draws st) (keyDialogs st),
     Pending).
Proof.
  intros H.
  unfold generateVeoVideo, bind, tryCatch, callOnUpdate, emit, modify, await.
  simpl. rewrite H. simpl. rewrite <- !app_assoc. reflexivity.
Qed.

End VideoJob.

(** C2.  When the submission call throws: an error whose message contains
    "Requested entity was not found" is replaced by a new error with
    message "API_KEY_EXPIRED"; every other error is thrown on as it is. *)
Theorem submission_error_translation :
  forall (C : Type) (r : Revision) (w : World)
         (prompt imageBuffer mimeType : jsstring)
         (onUpdate : jsstring -> C -> C) (fuel : nat) (st : State C) (e : JsError),
    generateVideos w (videosRequest prompt imageBuffer mimeType) = Rejected e ->
    ((exists m pre post,
         errMessage e = Some m /\ m = pre ++ entityNotFound ++ post) ->
     snd (generateVeoVideo r w prompt imageBuffer mimeType onUpdate fuel st)
     = Thrown (newError API_KEY_EXPIRED)) /\
    (~ (exists m pre post,
           errMessage e = Some m /\ m = pre ++ entityNotFound ++ post) ->
     snd (generateVeoVideo r w prompt imageBuffer mimeType onUpdate fuel st)
     = Thrown e).
Proof.
  intros C r w prompt imageBuffer mimeType onUpdate fuel st e Hcall.
  erewrite generateVeoVideo_refused by exact Hcall.
  simpl snd.
  split.
  - intros (m & pre & post & Hm & Hsub).
    rewrite Hm.
    assert (Hinc : includes m entityNotFound = true)
      by (apply includes_spec; now exists pre, post).
    now rewrite Hinc.
  - intros Hno.
    destruct (errMessage e) as [m|] eqn:Hm; [|reflexivity].
    destruct (includes m entityNotFound) eqn:Hinc; [|reflexivity].
    exfalso. apply Hno.
    apply includes_spec in Hinc as (pre & post & Hsub).
    now exists m, pre, post.
Qed.

Lemma submission_error_translation_witness :
  ((exists m pre post,
       errMessage entityNotFoundError = Some m /\ m = pre ++ entityNotFound ++ post) ->
   snd (generateVeoVideo LuxuryCinema expiredKeyWorld (lit "prompt")
          (data sampleImage) (mimeType sampleImage) onUpdate 5 (initState readyStore))
   = Thrown (newError API_KEY_EXPIRED)) /\
  (~ (exists m pre post,
         errMessage entityNotFoundError = Some m /\ m = pre ++ entityNotFound ++ post) ->
   snd (generateVeoVideo LuxuryCinema expiredKeyWorld (lit "prompt")
          (data sampleImage) (mimeType sampleImage) onUpdate 5 (initState readyStore))
   = Thrown entityNotFoundError).
Proof.
  apply (@submission_error_translation Store LuxuryCinema expiredKeyWorld
           (lit "prompt") (data sampleImage) (mimeType sampleImage) onUpdate 5
           (initState readyStore) entityNotFoundError).
  reflexivity.
Defined.

(** The two branches of the translation, run. *)
Example submission_error_translation_runs :
  snd (generateVeoVideo LuxuryCinema expiredKeyWorld (lit "prompt")
         (data sampleImage) (mimeType sampleImage) onUpdate 5 (initState readyStore))
  = Thrown (newError API_KEY_EXPIRED) /\
  snd (generateVeoVideo AerialDirector quotaWorld (lit "prompt")
         (data sampleImage) (mimeType sampleImage) onUpdate 5 (initState readyStore))
  = Thrown quotaError.
Proof. split; vm_compute; reflexivity. Qed.



(** The sample run: three iterations, three fetches, three callbacks. *)
Example pollLoop_cadence_runs :
  let run := pollLoop LuxuryCinema sampleWorld onUpdate 5 pendingOperation
               (initState readyStore) in
  snd run = Returned (finishedOperation (Some sampleLink)) /\
  List.map isPoll (log (fst run))
  = [false; true; false; false; true; false; false; true; false] /\
  List.map isUpdate (log (fst run))
  = [false; false; true; false; false; true; false; false; true].
Proof. vm_compute. repeat split. Qed.

(** C4.  When the operation the loop ends on is done and carries no usable
    video URI (none at all, or an empty one), [generateVeoVideo] throws the
    fixed "capture failed" error and fetches nothing. *)
Theorem generateVeoVideo_capture_failed :
  forall (C : Type) (r : Revision) (w : World)
         (prompt imageBuffer mimeType : jsstring)
         (onUpdate : jsstring -> C -> C) (ops : nat -> Operation)
         (n fuel : nat) (st : State C),
    generateVideos w (videosRequest prompt imageBuffer mimeType) = Resolved (ops 0) ->
    (forall k, k < n -> isDone (ops k) = false) ->
    (forall k, k < n ->
               getVideosOperation w (polls st + k) (ops k) = Resolved (ops (S k))) ->
    isDone (ops n) = true ->
    n <= fuel ->
    downloadLinkOf (ops n) = None \/ downloadLinkOf (ops n) = Some [] ->
    snd (generateVeoVideo r w prompt imageBuffer mimeType onUpdate fuel st)
    = Thrown (newError (captureFailedMessage r)) /\
    exists added,
      log (fst (generateVeoVideo r w prompt imageBuffer mimeType onUpdate fuel st))
      = log st ++ added /\
      filter isFetch added = [] /\
      List.length (filter isPoll added) = n.
Proof.
  intros C r w prompt imageBuffer mimeType onUpdate ops n fuel st
         Hsub Hbefore Hfetch Hdone Hfuel Hlink.
  erewrite generateVeoVideo_submitted by exact Hsub.
  unfold bind.
  rewrite (@pollLoop_unroll C r w onUpdate n fuel ops
             (afterSubmission r onUpdate prompt imageBuffer mimeType st));
    auto.
  rewrite Hdone.
  unfold deliver.
  assert (Hfalsy : truthy (downloadLinkOf (ops n)) = false)
    by (destruct Hlink as [-> | ->]; reflexivity).
  rewrite Hfalsy. simpl negb. cbv iota. unfold throw. simpl fst. simpl snd.
  split; [reflexivity|].
  rewrite afterIterations_log. simpl.
  exists ([ EvOnUpdate (initMessage r);
            EvGenerateVideos (videosRequest prompt imageBuffer mimeType);
            EvOnUpdate (inFlightMessage r) ]
          ++ loopEvents r w n (draws st) ops).
  split; [now rewrite <- app_assoc|].
  split.
  - rewrite filter_app, loopEvents_no_fetch. reflexivity.
  - rewrite filter_app, length_app, loopEvents_polls. reflexivity.
Qed.

Lemma generateVeoVideo_capture_failed_witness :
  snd (generateVeoVideo LuxuryCinema noVideoWorld (lit "prompt")
         (data sampleImage) (mimeType sampleImage) onUpdate 5 (initState readyStore))
  = Thrown (newError (captureFailedMessage LuxuryCinema)) /\
  exists added,
    log (fst (generateVeoVideo LuxuryCinema noVideoWorld (lit "prompt")
                (data sampleImage) (mimeType sampleImage) onUpdate 5
                (initState readyStore)))
    = log (initState readyStore) ++ added /\
    filter isFetch added = [] /\
    List.length (filter isPoll added) = 3.
Proof.
  apply (@generateVeoVideo_capture_failed Store LuxuryCinema noVideoWorld
           (lit "prompt") (data sampleImage) (mimeType sampleImage) onUpdate
           (sampleOps failedOperation) 3 5 (initState readyStore)).
  - reflexivity.
  - intros k Hk. unfold sampleOps.
    apply Nat.ltb_lt in Hk. now rewrite Hk.
  - intros k Hk. reflexivity.
  - reflexivity.
  - lia.
  - left. reflexivity.
Defined.

(** C5.  Over a sequence of fetched operation states, the loop comes to an
    end exactly when some state of the sequence is done; it then returns
    the first such state, after as many fetches as it took to reach it.
    Nothing else bounds it: when no state is ever done, it is still running
    after any number of iterations, having fetched once in each. *)
Theorem pollLoop_terminates_iff_done :
  forall (C : Type) (r : Revision) (w : World) (onUpdate : jsstring -> C -> C)
         (ops : nat -> Operation) (st : State C),
    (forall k, getVideosOperation w (polls st + k) (ops k) = Resolved (ops (S k))) ->
    ((exists fuel, snd (pollLoop r w onUpdate fuel (ops 0) st) <> Pending)
     <-> (exists n, isDone (ops n) = true)) /\
    (forall n,
        isDone (ops n) = true ->
        (forall k, k < n -> isDone (ops k) = false) ->
        forall fuel,
          n <= fuel ->
          snd (pollLoop r w onUpdate fuel (ops 0) st) = Returned (ops n) /\
          polls (fst (pollLoop r w onUpdate fuel (ops 0) st)) = polls st + n) /\
    ((forall n, isDone (ops n) = false) ->
     forall fuel,
       snd (pollLoop r w onUpdate fuel (ops 0) st) = Pending /\
       polls (fst (pollLoop r w onUpdate fuel (ops 0) st)) = polls st + fuel).
Proof.
  intros C r w onUpdate ops st Hfetch.
  assert (Hrun : forall fuel n,
             n <= fuel ->
             (forall k, k < n -> isDone (ops k) = false) ->
             isDone (ops n) = true \/ isDone (ops n) = false /\ n = fuel ->
             pollLoop r w onUpdate fuel (ops 0) st
             = (afterIterations r w onUpdate n ops st,
                if isDone (ops n) then Returned (ops n) else Pending)).
  { intros fuel n Hle Hbefore Hend.
    apply pollLoop_unroll; auto. destruct Hend as [Hd|[Hd Hn]]; auto. }
  split; [split|split].
  - intros [fuel Hout].
    destruct (first_done_or_cut ops fuel) as (n & Hle & Hbefore & Hend).
    destruct Hend as [Hd|[Hd Hn]]; [now exists n|].
    exfalso. apply Hout.
    rewrite (Hrun fuel n Hle Hbefore (or_intror (conj Hd Hn))).
    simpl. now rewrite Hd.
  - intros [n Hn].
    destruct (first_done_or_cut ops n) as (m & Hle & Hbefore & Hend).
    assert (Hm : isDone (ops m) = true).
    { destruct Hend as [Hd|[Hd Heq]]; [exact Hd|]. subst m. congruence. }
    exists m.
    rewrite (Hrun m m (Nat.le_refl m) Hbefore (or_introl Hm)).
    simpl. rewrite Hm. discriminate.
  - intros n Hn Hbefore fuel Hle.
    rewrite (Hrun fuel n Hle Hbefore (or_introl Hn)).
    simpl. rewrite Hn, afterIterations_polls. auto.
  - intros Hnever fuel.
    rewrite (Hrun fuel fuel (Nat.le_refl fuel) (fun k _ => Hnever k)
               (or_intror (conj (Hnever fuel) eq_refl))).
    simpl. rewrite Hnever, afterIterations_polls. auto.
Qed.

Lemma pollLoop_terminates_iff_done_witness :
  ((exists fuel,
       snd (pollLoop LuxuryCinema stuckWorld onUpdate fuel (neverDoneOps 0)
              (initState readyStore)) <> Pending)
   <-> (exists n, isDone (neverDoneOps n) = true)) /\
  (forall n,
      isDone (neverDoneOps n) = true ->
      (forall k, k < n -> isDone (neverDoneOps k) = false) ->
      forall fuel,
        n <= fuel ->
        snd (pollLoop LuxuryCinema stuckWorld onUpdate fuel (neverDoneOps 0)
               (initState readyStore)) = Returned (neverDoneOps n) /\
        polls (fst (pollLoop LuxuryCinema stuckWorld onUpdate fuel (neverDoneOps 0)
                      (initState readyStore)))
        = polls (initState readyStore) + n) /\
  ((forall n, isDone (neverDoneOps n) = false) ->
   forall fuel,
     snd (pollLoop LuxuryCinema stuckWorld onUpdate fuel (neverDoneOps 0)
            (initState readyStore)) = Pending /\
     polls (fst (pollLoop LuxuryCinema stuckWorld onUpdate fuel (neverDoneOps 0)
                   (initState readyStore)))
     = polls (initState readyStore) + fuel).
Proof.
  apply (@pollLoop_terminates_iff_done Store LuxuryCinema stuckWorld onUpdate
           neverDoneOps (initState readyStore)).
  intros k. reflexivity.
Defined.

(** A job that never completes keeps the loop running: a thousand
    iterations in, a thousand fetches have been made and it is not over. *)
Example pollLoop_unbounded_runs :
  snd (pollLoop LuxuryCinema stuckWorld onUpdate 1000 pendingOperation
         (initState readyStore)) = Pending /\
  polls (fst (pollLoop LuxuryCinema stuckWorld onUpdate 1000 pendingOperation
                (initState readyStore))) = 1000.
Proof. split; vm_compute; reflexivity. Qed.

(* ================================================================== *)
(** ** The workflow: what a run does to the store *)

Section Workflow.

Variable r : Revision.
Variable w : World.

Lemma generationBody_rest image fuel (st : State Store) :
  generationBody r w image fuel st = generationRest r w image fuel (afterAnalyzing r st).
Proof. reflexivity. Qed.

Lemma ensureApiKey_frame (st : State Store) :
  client (fst (ensureApiKey r w st)) = client st /\
  polls (fst (ensureApiKey r w st)) = polls st /\
  draws (fst (ensureApiKey r w st)) = draws st.
Proof.
  unfold ensureApiKey, callHasSelectedApiKey, callOpenSelectKey,
         tryCatch, bind, emit, await, ret, throw.
  destruct r; destruct (aistudio w) as [a|]; simpl; auto;
    destruct (hasSelectedApiKey a) as [[|]|e|]; simpl; auto;
    repeat match goal with
           | |- context [openSelectKey a ?k] =>
               destruct (openSelectKey a k) as [[]|?|]; simpl
           end; auto.
Qed.

Lemma callOpenSelectKey_client (st : State Store) :
  client (fst (callOpenSelectKey w st)) = client st.
Proof.
  unfold callOpenSelectKey, throw, await.
  destruct (aistudio w) as [a|]; [|reflexivity].
  destruct (openSelectKey a (keyDialogs st)); reflexivity.
Qed.

Lemma pollLoop_client (P : Store -> Prop) :
  (forall msg c, P c -> P (onUpdate msg c)) ->
  forall fuel op (st : State Store),
    P (client st) -> P (client (fst (pollLoop r w onUpdate fuel op st))).
Proof.
  intros Hkept. induction fuel as [|fuel IH]; intros op st HP; simpl.
  - destruct (isDone op); exact HP.
  - destruct (isDone op); [exact HP|].
    unfold bind, emit, fetchOperation, mathRandom, callOnUpdate, modify, await.
    simpl.
    destruct (getVideosOperation w (polls st) op) as [op'|e|]; simpl; try exact HP.
    apply IH. simpl. now apply Hkept.
Qed.

Lemma deliver_client (op : Operation) (st : State Store) :
  client (fst (deliver r w op st)) = client st.
Proof.
  unfold deliver, bind, emit, await, ret, throw.
  destruct (negb (truthy (downloadLinkOf op))); [reflexivity|]. simpl.
  destruct (fetch w _) as [fr|e|]; simpl; try reflexivity.
  destruct (blob fr); reflexivity.
Qed.

Lemma generateVeoVideo_client (P : Store -> Prop) :
  (forall msg c, P c -> P (onUpdate msg c)) ->
  forall prompt imageBuffer mime fuel (st : State Store),
    P (client st) ->
    P (client (fst (generateVeoVideo r w prompt imageBuffer mime onUpdate fuel st))).
Proof.
  intros Hkept prompt imageBuffer mime fuel st HP.
  destruct (generateVideos w (videosRequest prompt imageBuffer mime)) as [op|e|] eqn:Hsub.
  - erewrite generateVeoVideo_submitted by exact Hsub.
    unfold bind.
    pose proof (@pollLoop_client P Hkept fuel op
                  (afterSubmission r onUpdate prompt imageBuffer mime st)) as Hloop.
    destruct (pollLoop r w onUpdate fuel op
                (afterSubmission r onUpdate prompt imageBuffer mime st))
      as [st' [op'|e|]]; simpl in *.
    + rewrite deliver_client. apply Hloop. now do 2 apply Hkept.
    + apply Hloop. now do 2 apply Hkept.
    + apply Hloop. now do 2 apply Hkept.
  - erewrite generateVeoVideo_refused by exact Hsub. simpl. now apply Hkept.
  - erewrite generateVeoVideo_unsettled by exact Hsub. simpl. now apply Hkept.
Qed.

(** The rest of the [try] block: unless it returns, the store has only
    seen status updates; when it returns, the result has been stored and
    the status set to completed, in that order. *)
Lemma generationRest_client (P : Store -> Prop) :
  keptByStatus r P ->
  forall image fuel (st : State Store),
    P (client st) ->
    match snd (generationRest r w image fuel st) with
    | Returned _ =>
        exists c videoUrl directorPrompt,
          P c /\
          client (fst (generationRest r w image fuel st))
          = commitStatus (fun _ => mkStatus completed (completedMessage r) None)
              (setResult (Some (mkResult videoUrl directorPrompt)) c)
    | _ => P (client (fst (generationRest r w image fuel st)))
    end.
Proof.
  intros Hkept image fuel st HP.
  assert (Hmsg : forall msg c, P c -> P (onUpdate msg c))
    by (intros msg c; apply Hkept; constructor).
  unfold generationRest, generateDirectorPrompt, bind, emit, await, ret. simpl.
  destruct (generateContent w _) as [resp|e|]; simpl; try exact HP.
  unfold setStatus at 1. unfold modify at 1. simpl.
  match goal with
  | |- context [generateVeoVideo r w ?p ?i ?m onUpdate fuel ?s] =>
      pose proof (@generateVeoVideo_client P Hmsg p i m fuel s) as Hrun;
      destruct (generateVeoVideo r w p i m onUpdate fuel s) as [st' [url|e|]]
  end; simpl in *.
  - exists (client st'), url, (promptOfResponse r resp).
    split; [|reflexivity].
    apply Hrun. apply Hkept; [|exact HP].
    constructor. simpl. auto.
  - apply Hrun. apply Hkept; [|exact HP]. constructor. simpl. auto.
  - apply Hrun. apply Hkept; [|exact HP]. constructor. simpl. auto.
Qed.

Lemma generationHandler_client (P : Store -> Prop) :
  keptByStatus r P ->
  forall e (st : State Store),
    P (client st) -> P (client (fst (generationHandler r w e st))).
Proof.
  intros Hkept e st HP.
  unfold generationHandler, bind, emit. simpl.
  destruct (match errMessage e with
            | Some m => jsstring_eqb m API_KEY_EXPIRED
            | None => false
            end).
  - match goal with
    | |- context [callOpenSelectKey w ?s] =>
        pose proof (callOpenSelectKey_client s) as Hc;
        destruct (callOpenSelectKey w s) as [st' [[]|e'|]]
    end; simpl in *; rewrite Hc; try exact HP.
    apply Hkept; [|exact HP]. constructor. simpl. auto 6.
  - simpl. apply Hkept; [|exact HP]. constructor. simpl. auto 6.
Qed.

End Workflow.

Lemma startGeneration_started r w fuel image (st st1 : State Store) :
  selectedImage (client st) = Some image ->
  ensureApiKey r w st = (st1, Returned true) ->
  startGeneration r w fuel st
  = tryCatch (generationBody r w image fuel) (generationHandler r w) st1.
Proof.
  intros Himg Hkey.
  unfold startGeneration, bind, readClient. rewrite Himg, Hkey. reflexivity.
Qed.

(** A run changes the store through status updates, and through one
    [setResult] when it completes. *)
Lemma startGeneration_client r w (P : Store -> Prop) :
  keptByStatus r P ->
  forall fuel (st : State Store),
    P (client st) ->
    P (client (fst (startGeneration r w fuel st))) \/
    exists c videoUrl directorPrompt,
      P c /\
      snd (startGeneration r w fuel st) = Returned tt /\
      client (fst (startGeneration r w fuel st))
      = commitStatus (fun _ => mkStatus completed (completedMessage r) None)
          (setResult (Some (mkResult videoUrl directorPrompt)) c).
Proof.
  intros Hkept fuel st HP.
  unfold startGeneration, bind, readClient.
  destruct (selectedImage (client st)) as [image|]; [|left; exact HP].
  destruct (ensureApiKey_frame r w st) as (Hc & _ & _).
  destruct (ensureApiKey r w st) as [st1 [[|]|e|]]; simpl in Hc;
    try (left; simpl; rewrite Hc; exact HP).
  cbv beta iota. change (negb true) with false. cbv beta iota.
  unfold tryCatch. rewrite generationBody_rest.
  assert (HP1 : P (client (afterAnalyzing r st1))).
  { simpl. apply Hkept; [|rewrite Hc; exact HP]. constructor. simpl. auto. }
  pose proof (@generationRest_client r w P Hkept image fuel _ HP1) as Hrest.
  destruct (generationRest r w image fuel (afterAnalyzing r st1))
    as [st2 [[]|e|]]; simpl in Hrest.
  - right. destruct Hrest as (c & url & prompt & HPc & Hclient).
    exists c, url, prompt. auto.
  - left. now apply generationHandler_client.
  - left. exact Hrest.
Qed.

(** C10.  When the [try] block of a run throws, the run leaves the stored
    result, and the selected image, as they were. *)
Theorem failed_run_keeps_result :
  forall (r : Revision) (w : World) (fuel : nat) (s : Store) (image : Image)
         (st1 st2 : State Store) (e : JsError),
    selectedImage s = Some image ->
    ensureApiKey r w (initState s) = (st1, Returned true) ->
    generationBody r w image fuel st1 = (st2, Thrown e) ->
    result (afterGeneration r w fuel s) = result s /\
    selectedImage (afterGeneration r w fuel s) = selectedImage s.
Proof.
  intros r w fuel s image st1 st2 e Himg Hkey Hbody.
  pose (P := fun c : Store => result c = result s /\ selectedImage c = selectedImage s).
  assert (Hkept : keptByStatus r P).
  { intros f c _ [Hr Hi]. split; simpl; assumption. }
  unfold afterGeneration.
  rewrite (@startGeneration_started r w fuel image (initState s) st1 Himg Hkey).
  unfold tryCatch. rewrite Hbody.
  apply (@generationHandler_client r w P Hkept e st2).
  destruct (ensureApiKey_frame r w (initState s)) as (Hc & _ & _).
  rewrite Hkey in Hc. simpl in Hc.
  rewrite generationBody_rest in Hbody.
  assert (HP1 : P (client (afterAnalyzing r st1))).
  { simpl. rewrite Hc. split; reflexivity. }
  pose proof (@generationRest_client r w P Hkept image fuel _ HP1) as Hrest.
  rewrite Hbody in Hrest. exact Hrest.
Qed.

Lemma failed_run_keeps_result_witness :
  result (afterGeneration LuxuryCinema quotaWorld 5 completedStore)
  = result completedStore /\
  selectedImage (afterGeneration LuxuryCinema quotaWorld 5 completedStore)
  = selectedImage completedStore.
Proof.
  apply (@failed_run_keeps_result LuxuryCinema quotaWorld 5 completedStore sampleImage
           (fst (ensureApiKey LuxuryCinema quotaWorld (initState completedStore)))
           (fst (generationBody LuxuryCinema quotaWorld sampleImage 5
                   (fst (ensureApiKey LuxuryCinema quotaWorld (initState completedStore)))))
           quotaError).
  - vm_compute. reflexivity.
  - vm_compute. reflexivity.
  - vm_compute. reflexivity.
Defined.

(** The failed run above, run: the error status is set and the result of
    the earlier run is still there. *)
Example failed_run_keeps_result_runs :
  result completedStore
  = Some (mkResult (lit "blob:https://app.example/5a1c")
                   (lit "Slow aerial reveal of the villa.")) /\
  status (afterGeneration LuxuryCinema quotaWorld 5 completedStore)
  = mkStatus error (interruptedMessage LuxuryCinema) None /\
  result (afterGeneration LuxuryCinema quotaWorld 5 completedStore)
  = result completedStore.
Proof. vm_compute. repeat split. Qed.

Lemma neverPolling_kept (r : Revision) : keptByStatus r neverPolling.
Proof.
  intros f c Hf Hc. unfold neverPolling in *. simpl.
  inversion Hc as [|v l Hv Hl]; subst.
  assert (Hnew : step (f (status c)) <> polling).
  { destruct Hf as [v Hin|msg].
    - simpl in Hin.
      destruct Hin as [<-|[<-|[<-|[<-|[<-|[]]]]]]; discriminate.
    - exact Hv. }
  constructor; [exact Hnew|].
  apply Forall_app. split; [exact Hl|]. constructor; [exact Hnew|constructor].
Qed.

(** C9.  In every store the application can reach, the status, and every
    status ever committed, has a step other than [polling]: it is one of
    idle, analyzing, generating, completed and error. *)
Theorem polling_never_set :
  forall (r : Revision) (s : Store),
    reachable r s ->
    neverPolling s /\
    In (step (status s)) [idle; analyzing; generating; completed; error].
Proof.
  intros r s Hreach.
  assert (Hnp : neverPolling s).
  { induction Hreach as [|a s Hreach IH].
    - constructor; [discriminate|constructor].
    - destruct a as [file| |w fuel]; simpl.
      + destruct file as [f|]; [|exact IH]. exact IH.
      + exact IH.
      + unfold afterGeneration.
        destruct (@startGeneration_client r w neverPolling (@neverPolling_kept r)
                    fuel (initState s) IH) as [H|(c & url & prompt & Hc & _ & ->)].
        * exact H.
        * apply (@neverPolling_kept r); [constructor; simpl; auto|]. exact Hc. }
  split; [exact Hnp|].
  inversion Hnp as [|v l Hv _]; subst.
  destruct (step (status s)); simpl; auto 6. now elim Hv.
Qed.

Lemma polling_never_set_witness :
  neverPolling (perform LuxuryCinema (Generate sampleWorld 5)
                  (perform LuxuryCinema (Upload (Some sampleFile)) initialStore)) /\
  In (step (status (perform LuxuryCinema (Generate sampleWorld 5)
                      (perform LuxuryCinema (Upload (Some sampleFile)) initialStore))))
     [idle; analyzing; generating; completed; error].
Proof.
  apply (@polling_never_set LuxuryCinema
           (perform LuxuryCinema (Generate sampleWorld 5)
              (perform LuxuryCinema (Upload (Some sampleFile)) initialStore))).
  apply reachable_perform. apply reachable_perform. apply reachable_initial.
Defined.

(** C8, as stated, fails.  A generation started from the completed state
    is in flight, the status is analyzing, and the result of the previous
    run is still held: [startGeneration] never calls [setResult(null)]. *)
Lemma restart_discards_result_counterexample :
  step (status completedStore) = completed /\
  generateEnabled completedStore = true /\
  snd (startGeneration LuxuryCinema composingWorld 5 (initState completedStore)) = Pending /\
  step (status (afterGeneration LuxuryCinema composingWorld 5 completedStore)) = analyzing /\
  result (afterGeneration LuxuryCinema composingWorld 5 completedStore)
  = result completedStore /\
  result completedStore <> None.
Proof. vm_compute. repeat split. discriminate. Qed.

(** C8, amended.  A generation started from the completed or error state,
    once past the key check, first sets the status to analyzing.  Starting
    it does not discard the previous result: the result is still held while
    the run is in flight, and as long as the status is not completed.  The
    result is discarded by [handleImageUpload], when a new image is
    chosen. *)
Theorem restart_keeps_result_until_replaced :
  forall (r : Revision) (w : World) (fuel : nat) (s : Store) (image : Image)
         (st1 : State Store),
    selectedImage s = Some image ->
    step (status s) = completed \/ step (status s) = error ->
    ensureApiKey r w (initState s) = (st1, Returned true) ->
    (exists rest,
        statusHistory (afterGeneration r w fuel s)
        = statusHistory s ++ mkStatus analyzing (analyzingMessage r) None :: rest) /\
    (snd (startGeneration r w fuel (initState s)) = Pending ->
     result (afterGeneration r w fuel s) = result s) /\
    (step (status (afterGeneration r w fuel s)) <> completed ->
     result (afterGeneration r w fuel s) = result s) /\
    (forall file, result (handleImageUpload (Some file) s) = None).
Proof.
  intros r w fuel s image st1 Himg _ Hkey.
  pose (P := fun c : Store =>
               (exists rest,
                   statusHistory c
                   = statusHistory s ++ mkStatus analyzing (analyzingMessage r) None :: rest)
               /\ result c = result s).
  assert (Hkept : keptByStatus r P).
  { intros f c _ [[rest Hh] Hr]. split; [|exact Hr].
    exists (rest ++ [f (status c)]). simpl. rewrite Hh.
    rewrite <- app_assoc. reflexivity. }
  unfold afterGeneration.
  rewrite (@startGeneration_started r w fuel image (initState s) st1 Himg Hkey).
  destruct (ensureApiKey_frame r w (initState s)) as (Hc & _ & _).
  rewrite Hkey in Hc. simpl in Hc.
  unfold tryCatch. rewrite generationBody_rest.
  assert (HP1 : P (client (afterAnalyzing r st1))).
  { simpl. rewrite Hc. split; [|reflexivity]. now exists []. }
  pose proof (@generationRest_client r w P Hkept image fuel _ HP1) as Hrest.
  destruct (generationRest r w image fuel (afterAnalyzing r st1))
    as [st2 [[]|e|]]; simpl in Hrest.
  - destruct Hrest as (c & url & prompt & [[rest Hh] Hr] & Hclient).
    simpl fst. simpl snd. rewrite Hclient.
    split; [|split; [discriminate|split; [|reflexivity]]].
    + exists (rest ++ [mkStatus completed (completedMessage r) None]).
      simpl. rewrite Hh. rewrite <- app_assoc. reflexivity.
    + simpl. intros H. now elim H.
  - pose proof (@generationHandler_client r w P Hkept e st2 Hrest) as [Hh Hr].
    split; [exact Hh|]. split; [intros _; exact Hr|]. split; [intros _; exact Hr|].
    reflexivity.
  - destruct Hrest as [Hh Hr]. simpl fst.
    split; [exact Hh|]. split; [intros _; exact Hr|]. split; [intros _; exact Hr|].
    reflexivity.
Qed.

Lemma restart_keeps_result_until_replaced_witness :
  (exists rest,
      statusHistory (afterGeneration LuxuryCinema composingWorld 5 completedStore)
      = statusHistory completedStore
        ++ mkStatus analyzing (analyzingMessage LuxuryCinema) None :: rest) /\
  (snd (startGeneration LuxuryCinema composingWorld 5 (initState completedStore)) = Pending ->
   result (afterGeneration LuxuryCinema composingWorld 5 completedStore)
   = result completedStore) /\
  (step (status (afterGeneration LuxuryCinema composingWorld 5 completedStore)) <> completed ->
   result (afterGeneration LuxuryCinema composingWorld 5 completedStore)
   = result completedStore) /\
  (forall file, result (handleImageUpload (Some file) completedStore) = None).
Proof.
  apply (@restart_keeps_result_until_replaced LuxuryCinema composingWorld 5
           completedStore sampleImage
           (fst (ensureApiKey LuxuryCinema composingWorld (initState completedStore)))).
  - vm_compute. reflexivity.
  - left. vm_compute. reflexivity.
  - vm_compute. reflexivity.
Defined.

(* ================================================================== *)
(** ** The workflow: failures *)

Section Failures.

Variable r : Revision.
Variable w : World.





End Failures.


(** The same with AI Studio present and a key dialog that fails, in the
    other revision. *)
Example expired_key_broken_dialog_runs :
  snd (startGeneration AerialDirector brokenDialogWorld 5 (initState readyStore))
  = Thrown (newError (lit "The dialog could not be opened.")) /\
  status (afterGeneration AerialDirector brokenDialogWorld 5 readyStore)
  = mkStatus generating (initMessage AerialDirector) None.
Proof. vm_compute. split; reflexivity. Qed.

(** Outside AI Studio the two revisions of [ensureApiKey] part ways: one
    lets the run start, the other does not. *)
Example ensureApiKey_outside_studio_runs :
  snd (ensureApiKey LuxuryCinema outsideStudioWorld (initState readyStore)) = Returned true /\
  snd (ensureApiKey AerialDirector outsideStudioWorld (initState readyStore)) = Returned false /\
  afterGeneration AerialDirector outsideStudioWorld 5 readyStore = readyStore.
Proof. vm_compute. repeat split. Qed.



(* ================================================================== *)
(** ** The workflow: the successful run *)

Lemma deliver_success (C : Type) (r : Revision) (w : World) op link fr b (st : State C) :
  downloadLinkOf op = Some link ->
  link <> [] ->
  fetch w (link ++ lit "&key=" ++ toStr (envApiKey w)) = Resolved fr ->
  blob fr = Resolved b ->
  deliver r w op st
  = (mkState (client st)
             (log st ++ [ EvFetch (link ++ lit "&key=" ++ toStr (envApiKey w));
                          EvBlob; EvCreateObjectURL b ])
             (polls st) (draws st) (keyDialogs st),
     Returned (createObjectURL w b)).
Proof.
  intros Hlink Hne Hget Hblob.
  unfold deliver. rewrite Hlink.
  assert (Htruthy : truthy (Some link) = true)
    by (destruct link; [now elim Hne|reflexivity]).
  rewrite Htruthy.
  change (negb true) with false. cbv iota.
  change (toStr (Some link)) with link.
  unfold bind, emit, await, ret. cbv beta iota.
  rewrite Hget. cbv beta iota. rewrite Hblob. cbv beta iota.
  simpl. rewrite <- !app_assoc. reflexivity.
Qed.

Lemma generateVeoVideo_success (C : Type) (r : Revision) (w : World)
      (onUpd : jsstring -> C -> C) prompt imageBuffer mime
      (ops : nat -> Operation) (n fuel : nat) link fr b (st : State C) :
  generateVideos w (videosRequest prompt imageBuffer mime) = Resolved (ops 0) ->
  (forall k, k < n -> isDone (ops k) = false) ->
  (forall k, k < n ->
             getVideosOperation w (polls st + k) (ops k) = Resolved (ops (S k))) ->
  isDone (ops n) = true ->
  n <= fuel ->
  downloadLinkOf (ops n) = Some link ->
  link <> [] ->
  fetch w (link ++ lit "&key=" ++ toStr (envApiKey w)) = Resolved fr ->
  blob fr = Resolved b ->
  snd (generateVeoVideo r w prompt imageBuffer mime onUpd fuel st)
  = Returned (createObjectURL w b) /\
  client (fst (generateVeoVideo r w prompt imageBuffer mime onUpd fuel st))
  = client (afterIterations r w onUpd n ops
              (afterSubmission r onUpd prompt imageBuffer mime st)) /\
  filter isFetch (log (fst (generateVeoVideo r w prompt imageBuffer mime onUpd fuel st)))
  = filter isFetch (log st) ++ [EvFetch (link ++ lit "&key=" ++ toStr (envApiKey w))].
Proof.
  intros Hsub Hbefore Hfetch Hdone Hfuel Hlink Hne Hget Hblob.
  erewrite generateVeoVideo_submitted by exact Hsub.
  unfold bind.
  rewrite (@pollLoop_unroll C r w onUpd n fuel ops
             (afterSubmission r onUpd prompt imageBuffer mime st)); auto.
  rewrite Hdone.
  rewrite (@deliver_success C r w (ops n) link fr b _ Hlink Hne Hget Hblob).
  simpl fst. simpl snd. simpl client. simpl log.
  split; [reflexivity|]. split; [reflexivity|].
  rewrite afterIterations_log. simpl log.
  rewrite !filter_app, loopEvents_no_fetch. simpl.
  now rewrite !app_nil_r.
Qed.

Lemma messagesAppended_refl (c : Store) : messagesAppended c c.
Proof.
  repeat split. exists []. simpl. now rewrite app_nil_r.
Qed.

Lemma messagesAppended_onUpdate (c c' : Store) (msg : jsstring) :
  messagesAppended c c' -> messagesAppended c (onUpdate msg c').
Proof.
  intros (Hi & Hr & Hs & Hp & msgs & Hh).
  repeat split; simpl; auto.
  exists (msgs ++ [msg]).
  rewrite Hh, map_app, <- app_assoc. simpl.
  unfold withMessage. now rewrite Hs, Hp.
Qed.

Lemma skipn_length_app (A : Type) (l l' : list A) :
  skipn (List.length l) (l ++ l') = l'.
Proof. induction l as [|a l IH]; simpl; auto. Qed.

Lemma collapse_generating (tail : list VideoGenerationStatus) (p : option Q)
      (msgs : list jsstring) :
  collapse (generating
            :: List.map step (List.map (fun m => mkStatus generating m p) msgs ++ tail))
  = collapse (generating :: List.map step tail).
Proof.
  induction msgs as [|m msgs IH]; [reflexivity|].
  simpl map. simpl app.
  change (collapse (generating :: generating :: ?l)) with (collapse (generating :: l)).
  exact IH.
Qed.

(** C6.  The successful run.  An image is selected and the status is idle;
    the run passes the key check; [generateDirectorPrompt] returns [P];
    the submission yields an operation which, after [n] fetches, is done
    and carries the locator [L]; the video behind [L] is fetched.  Then
    [startGeneration] returns, the steps visited are idle, analyzing,
    generating, completed in that order, and the stored result pairs the
    object URL made from the bytes fetched at [L] with exactly [P]. *)
Theorem startGeneration_success :
  forall (r : Revision) (w : World) (fuel : nat) (s : Store) (image : Image)
         (st1 : State Store) (P : jsstring) (ops : nat -> Operation) (n : nat)
         (L : jsstring) (fr : FetchResponse) (b : Blob),
    selectedImage s = Some image ->
    step (status s) = idle ->
    ensureApiKey r w (initState s) = (st1, Returned true) ->
    snd (generateDirectorPrompt r w (data image) (mimeType image) (afterAnalyzing r st1))
    = Returned P ->
    generateVideos w (videosRequest P (data image) (mimeType image))
    = Resolved (ops 0) ->
    (forall k, k < n -> isDone (ops k) = false) ->
    (forall k, k < n -> getVideosOperation w k (ops k) = Resolved (ops (S k))) ->
    isDone (ops n) = true ->
    n <= fuel ->
    downloadLinkOf (ops n) = Some L ->
    L <> [] ->
    fetch w (L ++ lit "&key=" ++ toStr (envApiKey w)) = Resolved fr ->
    blob fr = Resolved b ->
    snd (startGeneration r w fuel (initState s)) = Returned tt /\
    stepsVisited s (afterGeneration r w fuel s) = [idle; analyzing; generating; completed] /\
    status (afterGeneration r w fuel s) = mkStatus completed (completedMessage r) None /\
    result (afterGeneration r w fuel s) = Some (mkResult (createObjectURL w b) P) /\
    exists msgs,
      statusHistory (afterGeneration r w fuel s)
      = statusHistory s
        ++ [ mkStatus analyzing (analyzingMessage r) None;
             mkStatus generating (generatingMessage r) None ]
        ++ List.map (fun m => mkStatus generating m None) msgs
        ++ [ mkStatus completed (completedMessage r) None ].
Proof.
  intros r w fuel s image st1 P ops n L fr b
         Himg Hidle Hkey Hprompt Hsub Hbefore Hfetch Hdone Hfuel Hlink Hne Hget Hblob.
  assert (Hresp : exists resp,
             generateContent w (contentRequest r (data image) (mimeType image))
             = Resolved resp /\ P = promptOfResponse r resp).
  { unfold generateDirectorPrompt, bind, emit, await, ret in Hprompt.
    simpl in Hprompt.
    destruct (generateContent w _) as [resp|e|]; simpl in Hprompt; try discriminate.
    injection Hprompt as <-. now exists resp. }
  destruct Hresp as (resp & Hc & ->).
  destruct (ensureApiKey_frame r w (initState s)) as (Hcl & Hpo & _).
  rewrite Hkey in Hcl, Hpo. simpl in Hcl, Hpo.
  unfold afterGeneration.
  rewrite (@startGeneration_started r w fuel image (initState s) st1 Himg Hkey).
  unfold tryCatch. rewrite generationBody_rest.
  unfold generationRest, generateDirectorPrompt, bind, emit, await, ret. simpl.
  rewrite Hc. simpl.
  unfold setStatus at 1. unfold modify at 1. simpl.
  match goal with
  | |- context [generateVeoVideo r w ?p ?i ?m onUpdate fuel ?st] =>
      destruct (@generateVeoVideo_success Store r w onUpdate p i m ops n fuel L fr b st)
        as (Hout & Hclient & _); auto;
      [ intros k Hk; simpl polls; rewrite Hpo; apply Hfetch; exact Hk
      | pose proof (@afterIterations_client Store r w onUpdate messagesAppended
                      messagesAppended_refl
                      (fun c msg c' => @messagesAppended_onUpdate c c' msg)
                      n ops st (afterSubmission r onUpdate p i m st)) as Hiter;
        destruct (generateVeoVideo r w p i m onUpdate fuel st) as [st' out] ]
  end.
  simpl in Hout, Hclient. subst out.
  unfold modify, setStatus. simpl. rewrite Hclient.
  destruct Hiter as (_ & _ & _ & _ & msgs & Hhist).
  { simpl. apply messagesAppended_onUpdate, messagesAppended_onUpdate,
             messagesAppended_refl. }
  simpl in Hhist. rewrite Hcl in Hhist |- *.
  split; [reflexivity|].
  unfold stepsVisited. simpl statusHistory. simpl status. simpl result.
  rewrite Hhist, Hidle.
  rewrite <- !app_assoc. rewrite skipn_length_app.
  split.
  - simpl app. simpl map.
    change (collapse (idle :: analyzing :: ?l)) with (idle :: collapse (analyzing :: l)).
    change (collapse (analyzing :: generating :: ?l))
      with (analyzing :: collapse (generating :: l)).
    rewrite collapse_generating. reflexivity.
  - split; [reflexivity|]. split; [reflexivity|].
    exists msgs. reflexivity.
Qed.

Lemma startGeneration_success_witness :
  snd (startGeneration LuxuryCinema sampleWorld 5 (initState readyStore)) = Returned tt /\
  stepsVisited readyStore (afterGeneration LuxuryCinema sampleWorld 5 readyStore)
  = [idle; analyzing; generating; completed] /\
  status (afterGeneration LuxuryCinema sampleWorld 5 readyStore)
  = mkStatus completed (completedMessage LuxuryCinema) None /\
  result (afterGeneration LuxuryCinema sampleWorld 5 readyStore)
  = Some (mkResult (createObjectURL sampleWorld sampleBlob)
                   (lit "Slow aerial reveal of the villa.")) /\
  exists msgs,
    statusHistory (afterGeneration LuxuryCinema sampleWorld 5 readyStore)
    = statusHistory readyStore
      ++ [ mkStatus analyzing (analyzingMessage LuxuryCinema) None;
           mkStatus generating (generatingMessage LuxuryCinema) None ]
      ++ List.map (fun m => mkStatus generating m None) msgs
      ++ [ mkStatus completed (completedMessage LuxuryCinema) None ].
Proof.
  apply (@startGeneration_success LuxuryCinema sampleWorld 5 readyStore sampleImage
           (fst (ensureApiKey LuxuryCinema sampleWorld (initState readyStore)))
           (lit "Slow aerial reveal of the villa.")
           (sampleOps (finishedOperation (Some sampleLink))) 3
           sampleLink (mkFetchResponse (Resolved sampleBlob)) sampleBlob).
  - vm_compute. reflexivity.
  - vm_compute. reflexivity.
  - vm_compute. reflexivity.
  - vm_compute. reflexivity.
  - vm_compute. reflexivity.
  - intros k Hk. unfold sampleOps. apply Nat.ltb_lt in Hk. now rewrite Hk.
  - intros k Hk. reflexivity.
  - vm_compute. reflexivity.
  - lia.
  - vm_compute. reflexivity.
  - discriminate.
  - vm_compute. reflexivity.
  - reflexivity.
Defined.

(** The sample run in the other revision, run: the statuses it commits. *)
Example startGeneration_success_runs :
  List.map step (statusHistory (afterGeneration AerialDirector sampleWorld 5 readyStore))
  = [analyzing; generating; generating; generating; generating; generating;
     generating; completed] /\
  List.map isFetch (log (fst (startGeneration AerialDirector sampleWorld 5
                                (initState readyStore))))
  = [false; false; false; false; false; false; false; false; false; false;
     false; false; false; false; true; false; false].
Proof. vm_compute. split; reflexivity. Qed.


(* ================================================================== *)
(** ** The key check *)

Lemma ensureApiKey_no_throw (r : Revision) (w : World) (st : State Store) (e : JsError) :
  snd (ensureApiKey r w st) <> Thrown e.
Proof.
  unfold ensureApiKey, callHasSelectedApiKey, callOpenSelectKey,
         tryCatch, bind, emit, await, ret, throw.
  destruct r; destruct (aistudio w) as [a|]; simpl; try discriminate;
    destruct (hasSelectedApiKey a) as [[|]|e'|]; simpl; try discriminate;
    repeat match goal with
           | |- context [openSelectKey a ?k] =>
               destruct (openSelectKey a k) as [[]|?|]; simpl
           end; discriminate.
Qed.

(** X1.  [ensureApiKey] of the Aerial Director revision never throws.  It
    returns true exactly when [hasSelectedApiKey] answers true, or answers
    false and the key dialog then returns; it returns false exactly when
    [window.aistudio] is missing or one of the two calls rejects. *)
Theorem ensureApiKey_director_outcome :
  forall (w : World) (st : State Store),
    (forall e, snd (ensureApiKey AerialDirector w st) <> Thrown e) /\
    (snd (ensureApiKey AerialDirector w st) = Returned true <->
     exists a,
       aistudio w = Some a /\
       (hasSelectedApiKey a = Resolved true \/
        hasSelectedApiKey a = Resolved false /\
        openSelectKey a (keyDialogs st) = Resolved tt)) /\
    (snd (ensureApiKey AerialDirector w st) = Returned false <->
     aistudio w = None \/
     exists a e,
       aistudio w = Some a /\
       (hasSelectedApiKey a = Rejected e \/
        hasSelectedApiKey a = Resolved false /\
        openSelectKey a (keyDialogs st) = Rejected e)).
Proof.
  intros w st.
  split; [intros e; apply ensureApiKey_no_throw|].
  unfold ensureApiKey, callHasSelectedApiKey, callOpenSelectKey,
         tryCatch, bind, emit, await, ret, throw.
  destruct (aistudio w) as [a|]; simpl;
    [ destruct (hasSelectedApiKey a) as [[|]|e|] eqn:Hhas; simpl;
      [ | destruct (openSelectKey a (keyDialogs st)) as [[]|e|] eqn:Hopen; simpl | | ]
    | ];
    (split; split);
    try discriminate;
    try (intros _; reflexivity);
    try (intros _; solve [eauto 8]);
    try (intros H;
         repeat match goal with
                | H : exists _, _ |- _ => destruct H
                | H : _ /\ _ |- _ => destruct H
                | H : _ \/ _ |- _ => destruct H
                | H : Some _ = Some _ |- _ => injection H as <-
                end; congruence).
Qed.

(** X2.  [ensureApiKey] of the Luxury Cinema revision never answers false
    and never throws: it returns true or is still waiting.  Without
    [window.aistudio] it returns true at once, with nothing called. *)
Theorem ensureApiKey_cinema_outcome :
  forall (w : World) (st : State Store),
    (snd (ensureApiKey LuxuryCinema w st) = Returned true \/
     snd (ensureApiKey LuxuryCinema w st) = Pending) /\
    (aistudio w = None -> ensureApiKey LuxuryCinema w st = (st, Returned true)).
Proof.
  intros w st.
  unfold ensureApiKey, callHasSelectedApiKey, callOpenSelectKey,
         tryCatch, bind, emit, await, ret, throw.
  destruct (aistudio w) as [a|]; simpl.
  - split; [|discriminate].
    destruct (hasSelectedApiKey a) as [[|]|e|]; simpl; auto;
      repeat match goal with
             | |- context [openSelectKey a ?k] =>
                 destruct (openSelectKey a k) as [[]|?|]; simpl
             end; auto.
  - split; [now left|reflexivity].
Qed.

(** X3.  The key check opens the key dialog at most once in the Aerial
    Director revision and at most twice in the Luxury Cinema revision, and
    not at all when a key is already selected: it then returns true after
    the one call of [hasSelectedApiKey]. *)
Theorem ensureApiKey_dialogs :
  forall (r : Revision) (w : World) (st : State Store),
    keyDialogs (fst (ensureApiKey r w st))
    <= keyDialogs st + match r with AerialDirector => 1 | LuxuryCinema => 2 end /\
    (forall a,
        aistudio w = Some a ->
        hasSelectedApiKey a = Resolved true ->
        ensureApiKey r w st
        = (mkState (client st) (log st ++ [EvHasSelectedApiKey])
                   (polls st) (draws st) (keyDialogs st),
           Returned true)).
Proof.
  intros r w st. split.
  - unfold ensureApiKey, callHasSelectedApiKey, callOpenSelectKey,
           tryCatch, bind, emit, await, ret, throw.
    destruct r; destruct (aistudio w) as [a|]; simpl; try lia;
      destruct (hasSelectedApiKey a) as [[|]|e|]; simpl; try lia;
      repeat match goal with
             | |- context [openSelectKey a ?k] =>
                 destruct (openSelectKey a k) as [[]|?|]; simpl
             end; lia.
  - intros a Ha Hhas.
    unfold ensureApiKey, callHasSelectedApiKey, tryCatch, bind, emit, await, ret.
    rewrite Ha. simpl. rewrite Hhas. destruct r; reflexivity.
Qed.

(** The key check asks for a key once, in both revisions. *)
Example ensureApiKey_dialogs_runs :
  keyDialogs (fst (ensureApiKey AerialDirector
                     (worldWith (Some askingStudio) Unsettled Unsettled neverDoneOps)
                     (initState readyStore))) = 1 /\
  log (fst (ensureApiKey LuxuryCinema
              (worldWith (Some brokenDialogStudio) Unsettled Unsettled neverDoneOps)
              (initState readyStore))) = [EvHasSelectedApiKey] /\
  log (fst (ensureApiKey LuxuryCinema
              (worldWith (Some (mkAIStudio (Resolved false)
                                  (fun _ => Rejected quotaError)))
                         Unsettled Unsettled neverDoneOps)
              (initState readyStore)))
  = [EvHasSelectedApiKey; EvOpenSelectKey; EvOpenSelectKey].
Proof. vm_compute. repeat split. Qed.

Lemma ensureApiKey_log (r : Revision) (w : World) (st : State Store) :
  exists added,
    log (fst (ensureApiKey r w st)) = log st ++ added /\
    filter isHostedCall added = [].
Proof.
  unfold ensureApiKey, callHasSelectedApiKey, callOpenSelectKey,
         tryCatch, bind, emit, await, ret, throw.
  destruct r; destruct (aistudio w) as [a|]; simpl;
    try destruct (hasSelectedApiKey a) as [[|]|e|]; simpl;
    repeat match goal with
           | |- context [openSelectKey a ?k] =>
               destruct (openSelectKey a k) as [[]|?|]; simpl
           end;
    first [ exists []; split; [now rewrite app_nil_r|reflexivity]
          | eexists; split; [rewrite <- ?app_assoc; reflexivity|reflexivity] ].
Qed.

(* ================================================================== *)
(** ** The workflow: guards, outcomes and the trigger *)

(** X4.  Without a selected image [startGeneration] returns at once and
    changes nothing.  When the key check answers false it returns too: the
    store is as it was and no hosted call (text model, submission, status
    fetch, download) has been made. *)
Theorem startGeneration_guards :
  forall (r : Revision) (w : World) (fuel : nat) (st : State Store),
    (selectedImage (client st) = None ->
     startGeneration r w fuel st = (st, Returned tt)) /\
    (snd (ensureApiKey r w st) = Returned false ->
     snd (startGeneration r w fuel st) = Returned tt /\
     client (fst (startGeneration r w fuel st)) = client st /\
     exists added,
       log (fst (startGeneration r w fuel st)) = log st ++ added /\
       filter isHostedCall added = []).
Proof.
  intros r w fuel st. split.
  - intros Hnone. unfold startGeneration, bind, readClient. now rewrite Hnone.
  - intros Hfalse.
    unfold startGeneration, bind, readClient.
    destruct (selectedImage (client st)) as [image|].
    + destruct (ensureApiKey_frame r w st) as (Hc & _ & _).
      destruct (ensureApiKey_log r w st) as (added & Hlog & Hnone).
      destruct (ensureApiKey r w st) as [st1 out]. simpl in *. subst out.
      simpl. repeat split; auto. now exists added.
    + simpl. repeat split. exists []. split; [now rewrite app_nil_r|reflexivity].
Qed.

(** The key check of the Aerial Director revision fails outside AI Studio:
    nothing is called and the store is untouched. *)
Example startGeneration_guards_runs :
  startGeneration LuxuryCinema sampleWorld 5 (initState initialStore)
  = (initState initialStore, Returned tt) /\
  client (fst (startGeneration AerialDirector outsideStudioWorld 5 (initState readyStore)))
  = readyStore /\
  filter isHostedCall
         (log (fst (startGeneration AerialDirector outsideStudioWorld 5
                      (initState readyStore)))) = [].
Proof. vm_compute. repeat split. Qed.

Section InFlight.

Variable r : Revision.
Variable w : World.

(** As [generationRest_client], for a property that only the updates made
    while the run is in flight have to keep. *)
Lemma generationRest_inflight (P : Store -> Prop) :
  (forall c, P c ->
             P (commitStatus (fun _ => mkStatus generating (generatingMessage r) None) c)) ->
  (forall msg c, P c -> P (onUpdate msg c)) ->
  forall image fuel (st : State Store),
    P (client st) ->
    match snd (generationRest r w image fuel st) with
    | Returned _ =>
        exists c videoUrl resp,
          P c /\
          generateContent w (contentRequest r (data image) (mimeType image))
          = Resolved resp /\
          client (fst (generationRest r w image fuel st))
          = commitStatus (fun _ => mkStatus completed (completedMessage r) None)
              (setResult (Some (mkResult videoUrl (promptOfResponse r resp))) c)
    | _ => P (client (fst (generationRest r w image fuel st)))
    end.
Proof.
  intros Hgen Hmsg image fuel st HP.
  unfold generationRest, generateDirectorPrompt, bind, emit, await, ret. simpl.
  destruct (generateContent w _) as [resp|e|]; simpl; try exact HP.
  unfold setStatus at 1. unfold modify at 1. simpl.
  match goal with
  | |- context [generateVeoVideo r w ?p ?i ?m onUpdate fuel ?s] =>
      pose proof (@generateVeoVideo_client r w P Hmsg p i m fuel s) as Hrun;
      destruct (generateVeoVideo r w p i m onUpdate fuel s) as [st' [url|e|]]
  end; simpl in *.
  - exists (client st'), url, resp. split; [|split; reflexivity].
    apply Hrun. now apply Hgen.
  - apply Hrun. now apply Hgen.
  - apply Hrun. now apply Hgen.
Qed.

(** The [catch] block either sets an error status and returns, or leaves
    the store as it found it; it throws only what the key dialog throws. *)
Lemma generationHandler_outcome e (st : State Store) :
  (snd (generationHandler r w e st) = Returned tt /\
   step (status (client (fst (generationHandler r w e st)))) = error /\
   selectedImage (client (fst (generationHandler r w e st))) = selectedImage (client st) /\
   result (client (fst (generationHandler r w e st))) = result (client st)) \/
  (snd (generationHandler r w e st) <> Returned tt /\
   client (fst (generationHandler r w e st)) = client st /\
   errMessage e = Some API_KEY_EXPIRED /\
   forall e', snd (generationHandler r w e st) = Thrown e' ->
              aistudio w = None /\ e' = typeError \/
              exists a k, aistudio w = Some a /\ openSelectKey a k = Rejected e').
Proof.
  unfold generationHandler, bind, emit, callOpenSelectKey, await, throw,
         setStatus, modify.
  destruct (errMessage e) as [m|]; simpl; [|left; auto].
  destruct (jsstring_eqb m API_KEY_EXPIRED) eqn:Heq; simpl; [|left; auto].
  apply jsstring_eqb_eq in Heq. subst m.
  destruct (aistudio w) as [a|]; simpl.
  - destruct (openSelectKey a (keyDialogs st)) as [[]|e'|] eqn:Hopen; simpl.
    + left. auto.
    + right. repeat split; try discriminate.
      intros e'' [= <-]. right. exists a, (keyDialogs st). auto.
    + right. repeat split; discriminate.
  - right. repeat split; try discriminate.
    intros e' [= <-]. left. auto.
Qed.

End InFlight.

(** X5.  Past the key check, how a run ends tells where the status stands.
    A run that returns has set the status to completed or to error, and
    the trigger is enabled again.  A run that has not returned (it is still
    waiting, or its catch block threw) stands at analyzing or generating:
    the trigger is disabled and the progress overlay is shown. *)
Theorem run_outcome_and_step :
  forall (r : Revision) (w : World) (fuel : nat) (s : Store) (image : Image)
         (st1 : State Store),
    selectedImage s = Some image ->
    ensureApiKey r w (initState s) = (st1, Returned true) ->
    (snd (startGeneration r w fuel (initState s)) = Returned tt ->
     (step (status (afterGeneration r w fuel s)) = completed \/
      step (status (afterGeneration r w fuel s)) = error) /\
     generateEnabled (afterGeneration r w fuel s) = true /\
     showsProgress (afterGeneration r w fuel s) = false) /\
    (snd (startGeneration r w fuel (initState s)) <> Returned tt ->
     (step (status (afterGeneration r w fuel s)) = analyzing \/
      step (status (afterGeneration r w fuel s)) = generating) /\
     generateEnabled (afterGeneration r w fuel s) = false /\
     showsProgress (afterGeneration r w fuel s) = true).
Proof.
  intros r w fuel s image st1 Himg Hkey.
  pose (P := fun c : Store =>
               selectedImage c = Some image /\
               (step (status c) = analyzing \/ step (status c) = generating)).
  assert (Hgen : forall c, P c ->
             P (commitStatus (fun _ => mkStatus generating (generatingMessage r) None) c)).
  { intros c [Hi _]. split; simpl; auto. }
  assert (Hmsg : forall msg c, P c -> P (onUpdate msg c)).
  { intros msg c [Hi Hs]. split; simpl; auto. }
  assert (Hflight : forall c, P c ->
             (step (status c) = analyzing \/ step (status c) = generating) /\
             generateEnabled c = false /\ showsProgress c = true).
  { intros c [Hi Hs]. split; [exact Hs|].
    unfold generateEnabled, showsProgress. rewrite Hi.
    destruct Hs as [-> | ->]; auto. }
  assert (Hdone : forall c,
             selectedImage c = Some image ->
             step (status c) = completed \/ step (status c) = error ->
             (step (status c) = completed \/ step (status c) = error) /\
             generateEnabled c = true /\ showsProgress c = false).
  { intros c Hi Hs. split; [exact Hs|].
    unfold generateEnabled, showsProgress. rewrite Hi.
    destruct Hs as [-> | ->]; auto. }
  unfold afterGeneration.
  rewrite (@startGeneration_started r w fuel image (initState s) st1 Himg Hkey).
  destruct (ensureApiKey_frame r w (initState s)) as (Hc & _ & _).
  rewrite Hkey in Hc. simpl in Hc.
  unfold tryCatch. rewrite generationBody_rest.
  assert (HP1 : P (client (afterAnalyzing r st1))).
  { split; simpl; [now rewrite Hc|now left]. }
  pose proof (@generationRest_inflight r w P Hgen Hmsg image fuel _ HP1) as Hrest.
  destruct (generationRest r w image fuel (afterAnalyzing r st1))
    as [st2 [[]|e|]]; simpl in Hrest.
  - destruct Hrest as (c & url & resp & [Hi _] & _ & Hclient).
    simpl fst. simpl snd. rewrite Hclient.
    split; [intros _|intros H; now elim H].
    apply Hdone; simpl; auto.
  - destruct (generationHandler_outcome r w e st2)
      as [(Hout & Hstep & Hsel & _)|(Hout & Hcl & _)].
    + split; [intros _|intros H; now elim H].
      apply Hdone; [|now right].
      rewrite Hsel. apply Hrest.
    + split; [intros H; now elim Hout|intros _].
      rewrite Hcl. now apply Hflight.
  - simpl fst. simpl snd.
    split; [discriminate|intros _]. now apply Hflight.
Qed.

Lemma run_outcome_and_step_witness :
  (snd (startGeneration LuxuryCinema quotaWorld 5 (initState readyStore)) = Returned tt ->
   (step (status (afterGeneration LuxuryCinema quotaWorld 5 readyStore)) = completed \/
    step (status (afterGeneration LuxuryCinema quotaWorld 5 readyStore)) = error) /\
   generateEnabled (afterGeneration LuxuryCinema quotaWorld 5 readyStore) = true /\
   showsProgress (afterGeneration LuxuryCinema quotaWorld 5 readyStore) = false) /\
  (snd (startGeneration LuxuryCinema quotaWorld 5 (initState readyStore)) <> Returned tt ->
   (step (status (afterGeneration LuxuryCinema quotaWorld 5 readyStore)) = analyzing \/
    step (status (afterGeneration LuxuryCinema quotaWorld 5 readyStore)) = generating) /\
   generateEnabled (afterGeneration LuxuryCinema quotaWorld 5 readyStore) = false /\
   showsProgress (afterGeneration LuxuryCinema quotaWorld 5 readyStore) = true).
Proof.
  apply (@run_outcome_and_step LuxuryCinema quotaWorld 5 readyStore sampleImage
           (fst (ensureApiKey LuxuryCinema quotaWorld (initState readyStore)))).
  - vm_compute. reflexivity.
  - vm_compute. reflexivity.
Defined.

(** A job that never completes, and a catch block that throws, both leave
    the trigger disabled. *)
Example run_outcome_and_step_runs :
  snd (startGeneration LuxuryCinema stuckWorld 50 (initState readyStore)) = Pending /\
  generateEnabled (afterGeneration LuxuryCinema stuckWorld 50 readyStore) = false /\
  snd (startGeneration LuxuryCinema outsideStudioWorld 5 (initState readyStore))
  = Thrown typeError /\
  generateEnabled (afterGeneration LuxuryCinema outsideStudioWorld 5 readyStore) = false /\
  generateEnabled (afterGeneration LuxuryCinema quotaWorld 5 readyStore) = true.
Proof. vm_compute. repeat split. Qed.

(** X6.  A run throws only what the key dialog of its catch block throws:
    when [startGeneration] ends with an error thrown, the try block had
    thrown an error with message "API_KEY_EXPIRED" and the call of
    [window.aistudio.openSelectKey] that followed failed with the error
    thrown, or [window.aistudio] is missing.  Every other failure ends as a
    status. *)
Theorem run_throws_only_from_dialog :
  forall (r : Revision) (w : World) (fuel : nat) (st : State Store) (e : JsError),
    snd (startGeneration r w fuel st) = Thrown e ->
    aistudio w = None /\ e = typeError \/
    exists a k, aistudio w = Some a /\ openSelectKey a k = Rejected e.
Proof.
  intros r w fuel st e.
  unfold startGeneration, bind, readClient.
  destruct (selectedImage (client st)) as [image|]; [|discriminate].
  pose proof (ensureApiKey_no_throw r w st) as Hno.
  destruct (ensureApiKey r w st) as [st1 [[|]|e0|]]; simpl in *;
    try discriminate; [|now elim (Hno e0)].
  unfold tryCatch.
  destruct (generationBody r w image fuel st1) as [st2 [[]|e0|]];
    simpl; try discriminate.
  destruct (generationHandler_outcome r w e0 st2)
    as [(Hout & _)|(_ & _ & _ & Hthrown)].
  - rewrite Hout. discriminate.
  - intros H. exact (Hthrown e H).
Qed.

Lemma run_throws_only_from_dialog_witness :
  aistudio brokenDialogWorld = None /\
  newError (lit "The dialog could not be opened.") = typeError \/
  exists a k,
    aistudio brokenDialogWorld = Some a /\
    openSelectKey a k = Rejected (newError (lit "The dialog could not be opened.")).
Proof.
  apply (@run_throws_only_from_dialog AerialDirector brokenDialogWorld 5
           (initState readyStore)).
  vm_compute. reflexivity.
Defined.

(* ================================================================== *)
(** ** The video job client: failures after the submission, and the log *)

Lemma updateMessages_app (l l' : list Event) :
  updateMessages (l ++ l') = updateMessages l ++ updateMessages l'.
Proof. unfold updateMessages. apply flat_map_app. Qed.

Lemma updateMessages_loopEvents (r : Revision) (w : World) (n : nat) :
  forall d ops, List.length (updateMessages (loopEvents r w n d ops)) = n.
Proof.
  induction n as [|n IH]; intros d ops; [reflexivity|].
  change (loopEvents r w (S n) d ops)
    with (iterationEvents r w (ops 0) d ++ loopEvents r w n (S d) (fun k => ops (S k))).
  rewrite updateMessages_app, length_app, IH. reflexivity.
Qed.

Section AfterSubmission.

Variable C : Type.
Variable r : Revision.
Variable w : World.
Variable onUpd : jsstring -> C -> C.

(** The loop unrolled up to a status fetch that fails. *)
Lemma pollLoop_unroll_rejected n :
  forall fuel (ops : nat -> Operation) (st : State C) e,
    (forall k, k <= n -> isDone (ops k) = false) ->
    (forall k, k < n ->
               getVideosOperation w (polls st + k) (ops k) = Resolved (ops (S k))) ->
    getVideosOperation w (polls st + n) (ops n) = Rejected e ->
    n < fuel ->
    snd (pollLoop r w onUpd fuel (ops 0) st) = Thrown e /\
    log (fst (pollLoop r w onUpd fuel (ops 0) st))
    = log st ++ loopEvents r w n (draws st) ops
      ++ [EvSetTimeout (pollDelay r); EvGetVideosOperation (ops n)].
Proof.
  induction n as [|n IH]; intros fuel ops st e Hnd Hf Hrej Hfuel.
  - destruct fuel as [|fuel]; [lia|].
    rewrite Nat.add_0_r in Hrej.
    simpl pollLoop. rewrite (Hnd 0 (Nat.le_refl 0)).
    unfold bind, emit, fetchOperation, await. simpl. rewrite Hrej. simpl.
    split; [reflexivity|]. now rewrite <- app_assoc.
  - destruct fuel as [|fuel]; [lia|].
    rewrite (@pollLoop_iterate C r w onUpd fuel (ops 0) (ops 1)).
    + destruct (IH fuel (fun k => ops (S k)) (afterIteration r w onUpd (ops 0) st) e)
        as [Hout Hlog].
      * intros k Hk. apply Hnd. lia.
      * intros k Hk. simpl polls.
        replace (S (polls st) + k) with (polls st + S k) by lia. apply Hf. lia.
      * simpl polls.
        replace (S (polls st) + n) with (polls st + S n) by lia. exact Hrej.
      * lia.
      * split; [exact Hout|].
        rewrite Hlog. simpl. now rewrite <- !app_assoc.
    + apply Hnd. lia.
    + specialize (Hf 0). rewrite Nat.add_0_r in Hf. apply Hf. lia.
Qed.

(** Whatever the world does, the loop logs delays, status fetches and
    callback calls only, and touches the caller's store through the
    callback alone: once per logged call, in order. *)
Lemma pollLoop_trace :
  forall fuel op (st : State C),
  exists added,
    log (fst (pollLoop r w onUpd fuel op st)) = log st ++ added /\
    client (fst (pollLoop r w onUpd fuel op st))
    = applyUpdates onUpd (updateMessages added) (client st) /\
    forallb isLoopEvent added = true /\
    forall Q : jsstring -> Prop,
      (forall k, Q (pickMessage r (random w k))) -> Forall Q (updateMessages added).
Proof.
  induction fuel as [|fuel IH]; intros op st.
  - exists []. simpl. destruct (isDone op); simpl;
      (split; [now rewrite app_nil_r|]; split; [reflexivity|];
       split; [reflexivity|]; intros; constructor).
  - simpl pollLoop. destruct (isDone op).
    + exists []. simpl.
      split; [now rewrite app_nil_r|]. split; [reflexivity|].
      split; [reflexivity|]. intros; constructor.
    + unfold bind, emit, fetchOperation, mathRandom, callOnUpdate, modify, await.
      simpl.
      destruct (getVideosOperation w (polls st) op) as [op'|e|]; simpl.
      * match goal with
        | |- context [pollLoop r w onUpd fuel op' ?s] =>
            destruct (IH op' s) as (added & Hlog & Hclient & Hev & Hq)
        end.
        exists ([EvSetTimeout (pollDelay r); EvGetVideosOperation op;
                 EvOnUpdate (pickMessage r (random w (draws st)))] ++ added).
        rewrite Hlog, Hclient. simpl.
        split; [now rewrite <- !app_assoc|]. split; [reflexivity|].
        split; [exact Hev|].
        intros Q HQ. constructor; [apply HQ|now apply Hq].
      * exists [EvSetTimeout (pollDelay r); EvGetVideosOperation op]. simpl.
        split; [now rewrite <- app_assoc|]. split; [reflexivity|].
        split; [reflexivity|]. intros; constructor.
      * exists [EvSetTimeout (pollDelay r); EvGetVideosOperation op]. simpl.
        split; [now rewrite <- app_assoc|]. split; [reflexivity|].
        split; [reflexivity|]. intros; constructor.
Qed.

Lemma deliver_trace (op : Operation) (st : State C) :
  exists added,
    log (fst (deliver r w op st)) = log st ++ added /\
    client (fst (deliver r w op st)) = client st /\
    updateMessages added = [] /\
    forallb isVideoJobEvent added = true /\
    filter isSubmission added = [] /\
    filter isPoll added = [] /\
    List.length (filter isFetch added) <= 1.
Proof.
  unfold deliver, bind, emit, await, ret, throw.
  destruct (negb (truthy (downloadLinkOf op))); simpl.
  - exists []. rewrite app_nil_r. simpl. repeat split; auto.
  - destruct (fetch w _) as [fr|e|]; simpl;
      [ destruct (blob fr) as [b|e|]; simpl | | ];
      (eexists; split; [rewrite <- ?app_assoc; reflexivity|]; simpl;
       repeat split; auto).
Qed.

End AfterSubmission.

Lemma loop_events_class (l : list Event) :
  forallb isLoopEvent l = true ->
  forallb isVideoJobEvent l = true /\
  filter isSubmission l = [] /\
  filter isFetch l = [] /\
  filter isContentRequest l = [] /\
  filter isObjectURL l = [].
Proof.
  induction l as [|e l IH]; simpl; [auto|].
  intros H. apply andb_true_iff in H as [He Hl].
  destruct (IH Hl) as (H1 & H2 & H3 & H4 & H5).
  destruct e; simpl in *; try discriminate; auto.
Qed.


(** Whatever the world does, [generateVeoVideo] submits one job, fetches at
    most one video, and touches the caller's store through the callback
    alone, the first time with the initial message. *)
Lemma generateVeoVideo_trace (C : Type) (r : Revision) (w : World)
      (onUpd : jsstring -> C -> C) prompt imageBuffer mime fuel (st : State C) :
  exists added,
    log (fst (generateVeoVideo r w prompt imageBuffer mime onUpd fuel st))
    = log st ++ added /\
    client (fst (generateVeoVideo r w prompt imageBuffer mime onUpd fuel st))
    = applyUpdates onUpd (updateMessages added) (client st) /\
    forallb isVideoJobEvent added = true /\
    List.length (filter isSubmission added) = 1 /\
    List.length (filter isFetch added) <= 1 /\
    (exists rest, updateMessages added = initMessage r :: rest) /\
    forall Q : jsstring -> Prop,
      Q (initMessage r) -> Q (inFlightMessage r) ->
      (forall k, Q (pickMessage r (random w k))) ->
      Forall Q (updateMessages added).
Proof.
  destruct (generateVideos w (videosRequest prompt imageBuffer mime)) as [op|e|] eqn:Hsub.
  - erewrite generateVeoVideo_submitted by exact Hsub.
    unfold bind.
    destruct (pollLoop_trace r w onUpd fuel op
                (afterSubmission r onUpd prompt imageBuffer mime st))
      as (added1 & Hlog1 & Hclient1 & Hev1 & Hq1).
    destruct (loop_events_class _ Hev1) as (Hv1 & Hs1 & Hf1 & _ & _).
    destruct (pollLoop r w onUpd fuel op
                (afterSubmission r onUpd prompt imageBuffer mime st))
      as [st' [op'|e|]]; simpl in Hlog1, Hclient1.
    + destruct (deliver_trace r w op' st')
        as (added2 & Hlog2 & Hclient2 & Hu2 & Hv2 & Hs2 & _ & Hf2).
      exists ([ EvOnUpdate (initMessage r);
                EvGenerateVideos (videosRequest prompt imageBuffer mime);
                EvOnUpdate (inFlightMessage r) ] ++ added1 ++ added2).
      rewrite Hlog2, Hclient2, Hlog1, Hclient1.
      split; [now rewrite <- !app_assoc|].
      rewrite !updateMessages_app, Hu2, app_nil_r.
      split; [reflexivity|].
      split; [rewrite !forallb_app, Hv1, Hv2; reflexivity|].
      split; [rewrite !filter_app, Hs1, Hs2; reflexivity|].
      split; [rewrite !filter_app, Hf1; simpl; exact Hf2|].
      split; [simpl; eauto|].
      intros Q Hi Hin Hk. simpl.
      constructor; [exact Hi|]. constructor; [exact Hin|]. now apply Hq1.
    + exists ([ EvOnUpdate (initMessage r);
                EvGenerateVideos (videosRequest prompt imageBuffer mime);
                EvOnUpdate (inFlightMessage r) ] ++ added1).
      simpl fst. rewrite Hlog1, Hclient1.
      split; [now rewrite <- !app_assoc|].
      rewrite !updateMessages_app.
      split; [reflexivity|].
      split; [rewrite !forallb_app, Hv1; reflexivity|].
      split; [rewrite !filter_app, Hs1; reflexivity|].
      split; [rewrite !filter_app, Hf1; simpl; lia|].
      split; [simpl; eauto|].
      intros Q Hi Hin Hk. simpl.
      constructor; [exact Hi|]. constructor; [exact Hin|]. now apply Hq1.
    + exists ([ EvOnUpdate (initMessage r);
                EvGenerateVideos (videosRequest prompt imageBuffer mime);
                EvOnUpdate (inFlightMessage r) ] ++ added1).
      simpl fst. rewrite Hlog1, Hclient1.
      split; [now rewrite <- !app_assoc|].
      rewrite !updateMessages_app.
      split; [reflexivity|].
      split; [rewrite !forallb_app, Hv1; reflexivity|].
      split; [rewrite !filter_app, Hs1; reflexivity|].
      split; [rewrite !filter_app, Hf1; simpl; lia|].
      split; [simpl; eauto|].
      intros Q Hi Hin Hk. simpl.
      constructor; [exact Hi|]. constructor; [exact Hin|]. now apply Hq1.
  - erewrite generateVeoVideo_refused by exact Hsub.
    exists [ EvOnUpdate (initMessage r);
             EvGenerateVideos (videosRequest prompt imageBuffer mime) ].
    simpl. repeat split; eauto.
  - erewrite generateVeoVideo_unsettled by exact Hsub.
    exists [ EvOnUpdate (initMessage r);
             EvGenerateVideos (videosRequest prompt imageBuffer mime) ].
    simpl. repeat split; eauto.
Qed.

(** X7.  A status fetch that fails ends [generateVeoVideo] with the error
    of the fetch, unchanged, whatever its message: only the submission is
    guarded by the translation to "API_KEY_EXPIRED".  By then the callback
    has been called twice and once per completed iteration, and no
    download was attempted. *)
Theorem poll_error_propagates :
  forall (C : Type) (r : Revision) (w : World)
         (prompt imageBuffer mimeType : jsstring)
         (onUpd : jsstring -> C -> C) (ops : nat -> Operation)
         (n fuel : nat) (st : State C) (e : JsError),
    generateVideos w (videosRequest prompt imageBuffer mimeType) = Resolved (ops 0) ->
    (forall k, k <= n -> isDone (ops k) = false) ->
    (forall k, k < n ->
               getVideosOperation w (polls st + k) (ops k) = Resolved (ops (S k))) ->
    getVideosOperation w (polls st + n) (ops n) = Rejected e ->
    n < fuel ->
    snd (generateVeoVideo r w prompt imageBuffer mimeType onUpd fuel st) = Thrown e /\
    exists added,
      log (fst (generateVeoVideo r w prompt imageBuffer mimeType onUpd fuel st))
      = log st ++ added /\
      List.length (updateMessages added) = n + 2 /\
      List.length (filter isPoll added) = n + 1 /\
      filter isFetch added = [].
Proof.
  intros C r w prompt imageBuffer mimeType onUpd ops n fuel st e
         Hsub Hnd Hfetch Hrej Hfuel.
  erewrite generateVeoVideo_submitted by exact Hsub.
  unfold bind.
  destruct (@pollLoop_unroll_rejected C r w onUpd n fuel ops
              (afterSubmission r onUpd prompt imageBuffer mimeType st) e)
    as [Hout Hlog]; auto.
  destruct (pollLoop r w onUpd fuel (ops 0)
              (afterSubmission r onUpd prompt imageBuffer mimeType st))
    as [st' out].
  simpl in Hout, Hlog. subst out. simpl fst. simpl snd.
  split; [reflexivity|].
  exists ([ EvOnUpdate (initMessage r);
            EvGenerateVideos (videosRequest prompt imageBuffer mimeType);
            EvOnUpdate (inFlightMessage r) ]
          ++ loopEvents r w n (draws st) ops
          ++ [EvSetTimeout (pollDelay r); EvGetVideosOperation (ops n)]).
  rewrite Hlog.
  split; [now rewrite <- !app_assoc|].
  rewrite !updateMessages_app, !filter_app, !length_app,
          updateMessages_loopEvents, loopEvents_polls, loopEvents_no_fetch.
  simpl. repeat split; lia.
Qed.

Lemma poll_error_propagates_witness :
  snd (generateVeoVideo LuxuryCinema pollFailureWorld (lit "prompt")
         (data sampleImage) (mimeType sampleImage) onUpdate 5 (initState readyStore))
  = Thrown entityNotFoundError /\
  exists added,
    log (fst (generateVeoVideo LuxuryCinema pollFailureWorld (lit "prompt")
                (data sampleImage) (mimeType sampleImage) onUpdate 5
                (initState readyStore)))
    = log (initState readyStore) ++ added /\
    List.length (updateMessages added) = 2 + 2 /\
    List.length (filter isPoll added) = 2 + 1 /\
    filter isFetch added = [].
Proof.
  apply (@poll_error_propagates Store LuxuryCinema pollFailureWorld (lit "prompt")
           (data sampleImage) (mimeType sampleImage) onUpdate
           neverDoneOps 2 5 (initState readyStore) entityNotFoundError).
  - reflexivity.
  - intros k _. reflexivity.
  - intros k Hk. simpl. apply Nat.ltb_lt in Hk. now rewrite Hk.
  - reflexivity.
  - lia.
Defined.

(** In the workflow that failure, though its message holds "Requested
    entity was not found", is shown with the generic message. *)
Example poll_error_propagates_runs :
  status (afterGeneration LuxuryCinema pollFailureWorld 5 readyStore)
  = mkStatus error (interruptedMessage LuxuryCinema) None.
Proof. vm_compute. reflexivity. Qed.

(** X8.  When the operation is done and carries a locator, a failure of
    the download (of [fetch], or of reading the body as a blob) ends
    [generateVeoVideo] with that error, unchanged; one fetch was made, and
    no object URL was created. *)
Theorem download_error_propagates :
  forall (C : Type) (r : Revision) (w : World)
         (prompt imageBuffer mimeType : jsstring)
         (onUpd : jsstring -> C -> C) (ops : nat -> Operation)
         (n fuel : nat) (L : jsstring) (st : State C) (e : JsError),
    generateVideos w (videosRequest prompt imageBuffer mimeType) = Resolved (ops 0) ->
    (forall k, k < n -> isDone (ops k) = false) ->
    (forall k, k < n ->
               getVideosOperation w (polls st + k) (ops k) = Resolved (ops (S k))) ->
    isDone (ops n) = true ->
    n <= fuel ->
    downloadLinkOf (ops n) = Some L ->
    L <> [] ->
    fetch w (L ++ lit "&key=" ++ toStr (envApiKey w)) = Rejected e \/
    (exists fr, fetch w (L ++ lit "&key=" ++ toStr (envApiKey w)) = Resolved fr /\
                blob fr = Rejected e) ->
    snd (generateVeoVideo r w prompt imageBuffer mimeType onUpd fuel st) = Thrown e /\
    exists added,
      log (fst (generateVeoVideo r w prompt imageBuffer mimeType onUpd fuel st))
      = log st ++ added /\
      filter isFetch added = [EvFetch (L ++ lit "&key=" ++ toStr (envApiKey w))] /\
      filter isObjectURL added = [].
Proof.
  intros C r w prompt imageBuffer mimeType onUpd ops n fuel L st e
         Hsub Hbefore Hfetch Hdone Hfuel Hlink Hne Hfail.
  erewrite generateVeoVideo_submitted by exact Hsub.
  unfold bind.
  rewrite (@pollLoop_unroll C r w onUpd n fuel ops
             (afterSubmission r onUpd prompt imageBuffer mimeType st)); auto.
  rewrite Hdone.
  unfold deliver. rewrite Hlink.
  assert (Htruthy : truthy (Some L) = true)
    by (destruct L; [now elim Hne|reflexivity]).
  rewrite Htruthy.
  change (negb true) with false. cbv iota.
  change (toStr (Some L)) with L.
  assert (Hloop : forall tail,
             exists added,
               log (afterIterations r w onUpd n ops
                      (afterSubmission r onUpd prompt imageBuffer mimeType st))
               ++ EvFetch (L ++ lit "&key=" ++ toStr (envApiKey w)) :: tail
               = log st ++ added /\
               filter isFetch added
               = EvFetch (L ++ lit "&key=" ++ toStr (envApiKey w)) :: filter isFetch tail /\
               filter isObjectURL added = filter isObjectURL tail).
  { intros tail.
    exists ([ EvOnUpdate (initMessage r);
              EvGenerateVideos (videosRequest prompt imageBuffer mimeType);
              EvOnUpdate (inFlightMessage r) ]
            ++ loopEvents r w n (draws st) ops
            ++ EvFetch (L ++ lit "&key=" ++ toStr (envApiKey w)) :: tail).
    rewrite afterIterations_log. simpl log.
    split; [now rewrite <- !app_assoc|].
    destruct (loop_events_class (loopEvents r w n (draws st) ops)) as (_ & _ & Hf & _ & Ho).
    { clear. revert ops. generalize (draws st).
      induction n as [|n IH]; intros d ops; simpl; auto. }
    rewrite !filter_app, Hf, Ho. simpl. auto. }
  unfold bind, emit, await. cbv beta iota.
  destruct Hfail as [Hget|(fr & Hget & Hblob)].
  - rewrite Hget. simpl fst. simpl snd. split; [reflexivity|].
    simpl log. destruct (Hloop []) as (added & Hlog & Hf & Ho).
    exists added. auto.
  - rewrite Hget. cbv beta iota. rewrite Hblob. simpl fst. simpl snd.
    split; [reflexivity|].
    simpl log. rewrite <- app_assoc. simpl app.
    destruct (Hloop [EvBlob]) as (added & Hlog & Hf & Ho).
    exists added. auto.
Qed.

Lemma download_error_propagates_witness :
  snd (generateVeoVideo LuxuryCinema downloadFailureWorld (lit "prompt")
         (data sampleImage) (mimeType sampleImage) onUpdate 5 (initState readyStore))
  = Thrown quotaError /\
  exists added,
    log (fst (generateVeoVideo LuxuryCinema downloadFailureWorld (lit "prompt")
                (data sampleImage) (mimeType sampleImage) onUpdate 5
                (initState readyStore)))
    = log (initState readyStore) ++ added /\
    filter isFetch added
    = [EvFetch (sampleLink ++ lit "&key=" ++ toStr (envApiKey downloadFailureWorld))] /\
    filter isObjectURL added = [].
Proof.
  apply (@download_error_propagates Store LuxuryCinema downloadFailureWorld
           (lit "prompt") (data sampleImage) (mimeType sampleImage) onUpdate
           (sampleOps (finishedOperation (Some sampleLink))) 3 5 sampleLink
           (initState readyStore) quotaError).
  - reflexivity.
  - intros k Hk. unfold sampleOps. apply Nat.ltb_lt in Hk. now rewrite Hk.
  - intros k Hk. reflexivity.
  - reflexivity.
  - lia.
  - reflexivity.
  - discriminate.
  - left. reflexivity.
Defined.

(** X9.  When the job is done after [n] fetches and the download works,
    [generateVeoVideo] returns the object URL of the downloaded blob.  It
    has then fetched the status [n] times, called the callback [n + 2]
    times, and made one download, from the locator followed by "&key=" and
    the API key, or the text "undefined" when no key is set. *)
Theorem generateVeoVideo_returns_object_url :
  forall (C : Type) (r : Revision) (w : World)
         (prompt imageBuffer mimeType : jsstring)
         (onUpd : jsstring -> C -> C) (ops : nat -> Operation)
         (n fuel : nat) (L : jsstring) (fr : FetchResponse) (b : Blob) (st : State C),
    generateVideos w (videosRequest prompt imageBuffer mimeType) = Resolved (ops 0) ->
    (forall k, k < n -> isDone (ops k) = false) ->
    (forall k, k < n ->
               getVideosOperation w (polls st + k) (ops k) = Resolved (ops (S k))) ->
    isDone (ops n) = true ->
    n <= fuel ->
    downloadLinkOf (ops n) = Some L ->
    L <> [] ->
    fetch w (L ++ lit "&key="
               ++ match envApiKey w with Some key => key | None => lit "undefined" end)
    = Resolved fr ->
    blob fr = Resolved b ->
    snd (generateVeoVideo r w prompt imageBuffer mimeType onUpd fuel st)
    = Returned (createObjectURL w b) /\
    exists added,
      log (fst (generateVeoVideo r w prompt imageBuffer mimeType onUpd fuel st))
      = log st ++ added /\
      List.length (filter isPoll added) = n /\
      List.length (updateMessages added) = n + 2 /\
      filter isFetch added
      = [EvFetch (L ++ lit "&key="
                    ++ match envApiKey w with Some key => key | None => lit "undefined" end)] /\
      filter isObjectURL added = [EvCreateObjectURL b].
Proof.
  intros C r w prompt imageBuffer mimeType onUpd ops n fuel L fr b st
         Hsub Hbefore Hfetch Hdone Hfuel Hlink Hne Hget Hblob.
  change (match envApiKey w with Some key => key | None => lit "undefined" end)
    with (toStr (envApiKey w)) in *.
  erewrite generateVeoVideo_submitted by exact Hsub.
  unfold bind.
  rewrite (@pollLoop_unroll C r w onUpd n fuel ops
             (afterSubmission r onUpd prompt imageBuffer mimeType st)); auto.
  rewrite Hdone.
  rewrite (@deliver_success C r w (ops n) L fr b _ Hlink Hne Hget Hblob).
  simpl fst. simpl snd. split; [reflexivity|].
  simpl log. rewrite afterIterations_log. simpl log.
  exists ([ EvOnUpdate (initMessage r);
            EvGenerateVideos (videosRequest prompt imageBuffer mimeType);
            EvOnUpdate (inFlightMessage r) ]
          ++ loopEvents r w n (draws st) ops
          ++ [ EvFetch (L ++ lit "&key=" ++ toStr (envApiKey w));
               EvBlob; EvCreateObjectURL b ]).
  split; [now rewrite <- !app_assoc|].
  destruct (loop_events_class (loopEvents r w n (draws st) ops)) as (_ & _ & Hf & _ & Ho).
  { clear. revert ops. generalize (draws st).
    induction n as [|n IH]; intros d ops; simpl; auto. }
  rewrite !updateMessages_app, !filter_app, !length_app,
          updateMessages_loopEvents, loopEvents_polls, Hf, Ho.
  simpl. repeat split; lia.
Qed.

Lemma generateVeoVideo_returns_object_url_witness :
  snd (generateVeoVideo LuxuryCinema sampleWorld (lit "prompt")
         (data sampleImage) (mimeType sampleImage) onUpdate 5 (initState readyStore))
  = Returned (createObjectURL sampleWorld sampleBlob) /\
  exists added,
    log (fst (generateVeoVideo LuxuryCinema sampleWorld (lit "prompt")
                (data sampleImage) (mimeType sampleImage) onUpdate 5
                (initState readyStore)))
    = log (initState readyStore) ++ added /\
    List.length (filter isPoll added) = 3 /\
    List.length (updateMessages added) = 3 + 2 /\
    filter isFetch added
    = [EvFetch (sampleLink ++ lit "&key="
                  ++ match envApiKey sampleWorld with
                     | Some key => key
                     | None => lit "undefined"
                     end)] /\
    filter isObjectURL added = [EvCreateObjectURL sampleBlob].
Proof.
  apply (@generateVeoVideo_returns_object_url Store LuxuryCinema sampleWorld
           (lit "prompt") (data sampleImage) (mimeType sampleImage) onUpdate
           (sampleOps (finishedOperation (Some sampleLink))) 3 5 sampleLink
           (mkFetchResponse (Resolved sampleBlob)) sampleBlob (initState readyStore)).
  - reflexivity.
  - intros k Hk. unfold sampleOps. apply Nat.ltb_lt in Hk. now rewrite Hk.
  - intros k Hk. reflexivity.
  - reflexivity.
  - lia.
  - reflexivity.
  - discriminate.
  - reflexivity.
  - reflexivity.
Defined.



Lemma last_cons_default (A : Type) (l : list A) :
  forall m d : A, last (m :: l) d = last l m.
Proof.
  induction l as [|a l IH]; intros m d; [reflexivity|].
  change (last (m :: a :: l) d) with (last (a :: l) d).
  now rewrite !IH.
Qed.

Lemma applyUpdates_onUpdate (msgs : list jsstring) :
  forall c : Store,
    selectedImage (applyUpdates onUpdate msgs c) = selectedImage c /\
    result (applyUpdates onUpdate msgs c) = result c /\
    step (status (applyUpdates onUpdate msgs c)) = step (status c) /\
    progress (status (applyUpdates onUpdate msgs c)) = progress (status c) /\
    message (status (applyUpdates onUpdate msgs c)) = last msgs (message (status c)) /\
    statusHistory (applyUpdates onUpdate msgs c)
    = statusHistory c
      ++ List.map (fun m => mkStatus (step (status c)) m (progress (status c))) msgs.
Proof.
  induction msgs as [|m msgs IH]; intros c.
  - simpl. rewrite app_nil_r. repeat split.
  - change (applyUpdates onUpdate (m :: msgs) c)
      with (applyUpdates onUpdate msgs (onUpdate m c)).
    destruct (IH (onUpdate m c)) as (Hi & Hr & Hs & Hp & Hm & Hh).
    rewrite Hi, Hr, Hs, Hp, Hm, Hh.
    do 4 (split; [reflexivity|]).
    split.
    + rewrite last_cons_default. reflexivity.
    + simpl. now rewrite <- app_assoc.
Qed.

(** X11.  The application forwards progress verbatim: whatever the run of
    [generateVeoVideo] does, each message it hands to the callback is
    committed as a status, in order, with the step and progress the status
    had when the job started; the status ends on the last message; the
    selected image and the result are not touched. *)
Theorem progress_mirrored_in_status :
  forall (r : Revision) (w : World) (prompt imageBuffer mimeType : jsstring)
         (fuel : nat) (st : State Store),
  exists added,
    log (fst (generateVeoVideo r w prompt imageBuffer mimeType onUpdate fuel st))
    = log st ++ added /\
    statusHistory
      (client (fst (generateVeoVideo r w prompt imageBuffer mimeType onUpdate fuel st)))
    = statusHistory (client st)
      ++ List.map (fun m => mkStatus (step (status (client st))) m
                                     (progress (status (client st))))
                  (updateMessages added) /\
    status (client (fst (generateVeoVideo r w prompt imageBuffer mimeType onUpdate fuel st)))
    = mkStatus (step (status (client st)))
               (last (updateMessages added) (message (status (client st))))
               (progress (status (client st))) /\
    selectedImage
      (client (fst (generateVeoVideo r w prompt imageBuffer mimeType onUpdate fuel st)))
    = selectedImage (client st) /\
    result (client (fst (generateVeoVideo r w prompt imageBuffer mimeType onUpdate fuel st)))
    = result (client st).
Proof.
  intros r w prompt imageBuffer mimeType fuel st.
  destruct (generateVeoVideo_trace r w onUpdate prompt imageBuffer mimeType fuel st)
    as (added & Hlog & Hclient & _).
  exists added. split; [exact Hlog|].
  rewrite Hclient.
  destruct (applyUpdates_onUpdate (updateMessages added) (client st))
    as (Hi & Hr & Hs & Hp & Hm & Hh).
  repeat split; auto.
  destruct (status (applyUpdates onUpdate (updateMessages added) (client st))).
  simpl in *. now subst.
Qed.

(* ================================================================== *)
(** ** The upload *)

Lemma split_no_separator (sep : N) (s : jsstring) :
  ~ In sep s -> split sep s = [s].
Proof.
  induction s as [|c s IH]; intros Hno; [reflexivity|].
  simpl. destruct (N.eqb_spec c sep) as [->|Hne].
  - elim Hno. now left.
  - rewrite IH; [reflexivity|]. intros Hin. apply Hno. now right.
Qed.

Lemma split_at_first_separator (sep : N) (pre post : jsstring) :
  ~ In sep pre -> split sep (pre ++ sep :: post) = pre :: split sep post.
Proof.
  induction pre as [|c pre IH]; intros Hno.
  - simpl. now rewrite N.eqb_refl.
  - simpl. destruct (N.eqb_spec c sep) as [->|Hne].
    + elim Hno. now left.
    + rewrite IH; [reflexivity|]. intros Hin. apply Hno. now right.
Qed.

(** X12.  Choosing a file whose content was read as the data URL
    "data:<type>;base64,<payload>" (no comma in the type nor in the
    payload) selects the image made of the payload and the type, clears the
    result and leaves the status alone; the preview then shows the very
    data URL that was read. *)
Theorem upload_preview_round_trip :
  forall (f : File) (payload : jsstring) (s : Store),
    ~ In 44%N (fileType f) ->
    ~ In 44%N payload ->
    readerResult f = lit "data:" ++ fileType f ++ lit ";base64," ++ payload ->
    selectedImage (handleImageUpload (Some f) s) = Some (mkImage payload (fileType f)) /\
    previewSrc (mkImage payload (fileType f)) = readerResult f /\
    result (handleImageUpload (Some f) s) = None /\
    status (handleImageUpload (Some f) s) = status s /\
    statusHistory (handleImageUpload (Some f) s) = statusHistory s.
Proof.
  intros f payload s Htype Hpayload Hread.
  assert (Hsplit : split 44 (readerResult f)
                   = [lit "data:" ++ fileType f ++ lit ";base64"; payload]).
  { rewrite Hread.
    change (lit ";base64,") with (lit ";base64" ++ [44%N]).
    replace (lit "data:" ++ fileType f ++ (lit ";base64" ++ [44%N]) ++ payload)
      with ((lit "data:" ++ fileType f ++ lit ";base64") ++ 44%N :: payload)
      by (rewrite <- !app_assoc; reflexivity).
    rewrite split_at_first_separator, split_no_separator; auto.
    intros Hin. apply in_app_or in Hin as [Hin|Hin].
    - vm_compute in Hin. intuition discriminate.
    - apply in_app_or in Hin as [Hin|Hin]; [now apply Htype|].
      vm_compute in Hin. intuition discriminate. }
  unfold handleImageUpload. rewrite Hsplit. simpl.
  repeat split. unfold previewSrc. simpl. now rewrite Hread.
Qed.

Lemma upload_preview_round_trip_witness :
  selectedImage (handleImageUpload (Some sampleFile) completedStore)
  = Some (mkImage (lit "AAAA") (fileType sampleFile)) /\
  previewSrc (mkImage (lit "AAAA") (fileType sampleFile)) = readerResult sampleFile /\
  result (handleImageUpload (Some sampleFile) completedStore) = None /\
  status (handleImageUpload (Some sampleFile) completedStore) = status completedStore /\
  statusHistory (handleImageUpload (Some sampleFile) completedStore)
  = statusHistory completedStore.
Proof.
  apply (@upload_preview_round_trip sampleFile (lit "AAAA") completedStore).
  - vm_compute. intuition discriminate.
  - vm_compute. intuition discriminate.
  - reflexivity.
Defined.

(* ================================================================== *)
(** ** The director prompt, as returned and as stored *)

Lemma trimStart_fixed (c : N) (u : jsstring) :
  isWhiteSpace c = false -> trimStart (c :: u) = c :: u.
Proof. intros H. simpl. now rewrite H. Qed.

Lemma rev_head_last (A : Type) (l : list A) (d : A) :
  l <> [] -> rev l = last l d :: rev (removelast l).
Proof.
  intros Hne.
  rewrite (app_removelast_last d Hne) at 1.
  now rewrite rev_app_distr.
Qed.

Lemma trim_idempotent (s : jsstring) : trim (trim s) = trim s.
Proof.
  destruct (trim s) as [|c u] eqn:E; [reflexivity|].
  destruct (trim_edges s E) as [Hhead Hlast].
  rewrite E in Hlast.
  unfold trim, trimEnd.
  rewrite (@trimStart_fixed c u Hhead).
  rewrite (@rev_head_last N (c :: u) c) by discriminate.
  rewrite (@trimStart_fixed _ _ Hlast).
  rewrite <- (@rev_head_last N (c :: u) c) by discriminate.
  apply rev_involutive.
Qed.

Lemma promptOfResponse_trimmed (r : Revision) (resp : GenerateContentResponse) :
  promptOfResponse r resp <> [] /\
  trim (promptOfResponse r resp) = promptOfResponse r resp.
Proof.
  assert (Hfb : fallbackPrompt r <> [] /\ trim (fallbackPrompt r) = fallbackPrompt r)
    by (split; [apply fallbackPrompt_nonempty|destruct r; vm_compute; reflexivity]).
  unfold promptOfResponse.
  destruct (text resp) as [t|]; simpl; [|exact Hfb].
  destruct (trim t) as [|c u] eqn:E; simpl; [exact Hfb|].
  split; [discriminate|]. rewrite <- E. apply trim_idempotent.
Qed.

(** X13.  Whatever the text model answers, a prompt returned by
    [generateDirectorPrompt] is already trimmed: trimming it again changes
    nothing, and it neither starts nor ends with white space. *)
Theorem director_prompt_is_trimmed :
  forall (C : Type) (r : Revision) (w : World) (imageBuffer mimeType : jsstring)
         (st : State C) (P : jsstring),
    snd (generateDirectorPrompt r w imageBuffer mimeType st) = Returned P ->
    trim P = P /\
    exists c u,
      P = c :: u /\ isWhiteSpace c = false /\ isWhiteSpace (last P c) = false.
Proof.
  intros C r w imageBuffer mimeType st P.
  unfold generateDirectorPrompt, bind, emit, await, ret. simpl.
  destruct (generateContent w _) as [resp|e|]; simpl; try discriminate.
  intros [= <-].
  destruct (promptOfResponse_trimmed r resp) as [Hne Htrim].
  split; [exact Htrim|].
  destruct (promptOfResponse r resp) as [|c u] eqn:E; [now elim Hne|].
  exists c, u. split; [reflexivity|].
  rewrite <- E in Htrim.
  assert (Ht : trim (c :: u) = c :: u) by (rewrite <- E at 2; rewrite <- Htrim, E; reflexivity).
  destruct (trim_edges (c :: u) Ht) as [Hh Hl].
  rewrite Ht in Hl. auto.
Qed.

Lemma director_prompt_is_trimmed_witness :
  trim (lit "Slow aerial reveal of the villa.") = lit "Slow aerial reveal of the villa." /\
  exists c u,
    lit "Slow aerial reveal of the villa." = c :: u /\
    isWhiteSpace c = false /\
    isWhiteSpace (last (lit "Slow aerial reveal of the villa.") c) = false.
Proof.
  apply (@director_prompt_is_trimmed Store LuxuryCinema sampleWorld
           (data sampleImage) (mimeType sampleImage) (initState readyStore)).
  vm_compute. reflexivity.
Defined.

(** A run leaves the result as it was and only extends the record of
    statuses, or it has stored a result made of the prompt the text model
    gave and then committed the completed status. *)
Lemma startGeneration_result_shape (r : Revision) (w : World) (fuel : nat)
      (st : State Store) :
  (result (client (fst (startGeneration r w fuel st))) = result (client st) /\
   exists rest,
     statusHistory (client (fst (startGeneration r w fuel st)))
     = statusHistory (client st) ++ rest) \/
  (exists videoUrl resp rest,
      result (client (fst (startGeneration r w fuel st)))
      = Some (mkResult videoUrl (promptOfResponse r resp)) /\
      statusHistory (client (fst (startGeneration r w fuel st)))
      = statusHistory (client st) ++ rest
        ++ [mkStatus completed (completedMessage r) None] /\
      status (client (fst (startGeneration r w fuel st)))
      = mkStatus completed (completedMessage r) None).
Proof.
  pose (P := fun c : Store =>
               result c = result (client st) /\
               exists rest, statusHistory c = statusHistory (client st) ++ rest).
  assert (HP0 : P (client st)) by (split; [reflexivity|exists []; now rewrite app_nil_r]).
  assert (Hany : forall f c, P c -> P (commitStatus f c)).
  { intros f c [Hr [rest Hh]]. split; [exact Hr|].
    exists (rest ++ [f (status c)]). simpl. now rewrite Hh, <- app_assoc. }
  assert (Hkept : keptByStatus r P) by (intros f c _; apply Hany).
  unfold startGeneration, bind, readClient.
  destruct (selectedImage (client st)) as [image|]; [|left; exact HP0].
  destruct (ensureApiKey_frame r w st) as (Hc & _ & _).
  destruct (ensureApiKey r w st) as [st1 [[|]|e|]]; simpl in Hc;
    try (left; simpl; rewrite Hc; exact HP0).
  cbv beta iota. change (negb true) with false. cbv beta iota.
  unfold tryCatch. rewrite generationBody_rest.
  assert (HP1 : P (client (afterAnalyzing r st1))).
  { simpl. apply Hany. rewrite Hc. exact HP0. }
  pose proof (@generationRest_inflight r w P (fun c => @Hany _ c)
                (fun msg c => @Hany _ c) image fuel _ HP1) as Hrest.
  destruct (generationRest r w image fuel (afterAnalyzing r st1))
    as [st2 [[]|e|]]; simpl in Hrest.
  - right. destruct Hrest as (c & url & resp & [Hr [rest Hh]] & _ & Hclient).
    exists url, resp, rest. simpl fst. rewrite Hclient. simpl.
    rewrite Hh, <- app_assoc. auto.
  - left. now apply generationHandler_client.
  - left. exact Hrest.
Qed.

(** X14.  In every store the application can reach, a result that is held
    was stored by a run that completed, and the director prompt in it is
    not empty and is trimmed. *)
Theorem stored_result_is_sound :
  forall (r : Revision) (s : Store), reachable r s -> resultSound s.
Proof.
  intros r s Hreach.
  induction Hreach as [|a s Hreach IH].
  - intros v Hv. discriminate.
  - destruct a as [file| |w fuel]; simpl.
    + destruct file as [f|]; [|exact IH]. intros v Hv. discriminate.
    + exact IH.
    + unfold afterGeneration.
      destruct (startGeneration_result_shape r w fuel (initState s))
        as [[Hr [rest Hh]]|(url & resp & rest & Hr & Hh & _)];
        simpl in Hr, Hh; intros v Hv.
      * rewrite Hr in Hv. destruct (IH v Hv) as (Hne & Htrim & c & Hin & Hc).
        split; [exact Hne|]. split; [exact Htrim|].
        exists c. split; [|exact Hc]. rewrite Hh. apply in_or_app. now left.
      * rewrite Hr in Hv. injection Hv as <-. simpl.
        destruct (promptOfResponse_trimmed r resp) as [Hne Htrim].
        split; [exact Hne|]. split; [exact Htrim|].
        exists (mkStatus completed (completedMessage r) None).
        split; [|reflexivity].
        rewrite Hh. apply in_or_app. right. apply in_or_app. right. now left.
Qed.

Lemma stored_result_is_sound_witness :
  resultSound (perform LuxuryCinema (Generate quotaWorld 5)
                 (perform LuxuryCinema (Generate sampleWorld 5)
                    (perform LuxuryCinema (Upload (Some sampleFile)) initialStore))) /\
  result (perform LuxuryCinema (Generate quotaWorld 5)
            (perform LuxuryCinema (Generate sampleWorld 5)
               (perform LuxuryCinema (Upload (Some sampleFile)) initialStore)))
  <> None.
Proof.
  split.
  - exact (@stored_result_is_sound LuxuryCinema _
             (@reachable_perform LuxuryCinema (Generate quotaWorld 5) _
                (@reachable_perform LuxuryCinema (Generate sampleWorld 5) _
                   (@reachable_perform LuxuryCinema (Upload (Some sampleFile)) _
                      (reachable_initial LuxuryCinema))))).
  - vm_compute. discriminate.
Defined.

(* ================================================================== *)
(** ** The workflow: the hosted calls of a run *)




